(** * localstack-go-wrapper: the container configuration of a LocalStack environment

  A shallow embedding of package [localstack] (the port-mapping resolver
  [hostConfig], the environment composer [containerConfig], the image pull
  and the lifecycle operations [New], [Start], [Stop]) together with the
  library functions of [strconv], [strings], [unicode], [unicode/utf8] and
  [go-connections/nat] that the package calls, and the properties of these
  functions. *)

From Stdlib Require Import ZArith List Ascii String Lia.
From Stdlib Require Import DecimalString DecimalPos DecimalZ.
From stdpp Require Import base option list strings gmap fin_maps.

Local Open Scope string_scope.
Local Open Scope Z_scope.
Local Open Scope list_scope.

(** ** Go values *)

(** The [error] interface.  The constructors name the origin of an error
  value; a nil error is [None] in [option error]. *)
Inductive error : Type :=
  | ErrSyntax (fn input : string)      (* strconv.ErrSyntax in a NumError *)
  | ErrRange (fn input : string)       (* strconv.ErrRange in a NumError *)
  | ErrEmptyPorts                      (* nat: empty string for ports *)
  | ErrInvalidRange (ports : string)   (* nat: invalid range for the port *)
  | ErrService (msg : string)          (* a miss of the services registry *)
  | ErrRuntime (msg : string).         (* an error of the docker client *)

(** ** Package strconv *)

Module strconv.

(** [strconv.Itoa]: the decimal rendering of an [int], with a leading
    minus sign for a negative one. *)
Definition Itoa (i : Z) : string :=
  NilZero.string_of_int (Z.to_int i).

(** [strconv.ParseUint(s, 10, 16)]: a non-empty string of decimal digits
    whose value fits 16 bits; no sign and no underscore is accepted.  On a
    range error Go returns the largest value next to the error. *)
Definition ParseUint16 (s : string) : Z * option error :=
  match NilZero.uint_of_string s with
  | None => (0, Some (ErrSyntax "ParseUint" s))
  | Some d =>
      if Z.of_uint d <=? 65535 then (Z.of_uint d, None)
      else (65535, Some (ErrRange "ParseUint" s))
  end.

End strconv.

(** ** Package unicode/utf8 *)

Module utf8.

(** [utf8.RuneError], the rune U+FFFD, and [utf8.RuneSelf]. *)
Definition RuneError : Z := 0xFFFD.
Definition RuneSelf : Z := 0x80.

(** The value of a byte of a string, and the byte of a value: the
    conversion [byte(x)] keeps the low 8 bits. *)
Definition byte_val (c : ascii) : Z := Z.of_N (N_of_ascii c).
Definition to_byte (x : Z) : ascii := ascii_of_N (Z.to_N x).

(** Whether the second byte [b1] lies in the range that [acceptRanges]
    gives for the first byte [b0], and whether a later byte is a
    continuation byte. *)
Definition accept (b0 b1 : Z) : bool :=
  let lo := if b0 =? 0xE0 then 0xA0 else if b0 =? 0xF0 then 0x90 else 0x80 in
  let hi := if b0 =? 0xED then 0x9F else if b0 =? 0xF4 then 0x8F else 0xBF in
  (lo <=? b1) && (b1 <=? hi).

Definition continuation (b : Z) : bool := (0x80 <=? b) && (b <=? 0xBF).

(** The runes of two, three and four bytes. *)
Definition rune2 (b0 b1 : Z) : Z :=
  Z.lor (Z.shiftl (Z.land b0 0x1F) 6) (Z.land b1 0x3F).

Definition rune3 (b0 b1 b2 : Z) : Z :=
  Z.lor (Z.lor (Z.shiftl (Z.land b0 0x0F) 12) (Z.shiftl (Z.land b1 0x3F) 6))
        (Z.land b2 0x3F).

Definition rune4 (b0 b1 b2 b3 : Z) : Z :=
  Z.lor (Z.lor (Z.lor (Z.shiftl (Z.land b0 0x07) 18)
                      (Z.shiftl (Z.land b1 0x3F) 12))
               (Z.shiftl (Z.land b2 0x3F) 6))
        (Z.land b3 0x3F).

(** The runes that [for _, c := range s] yields, each decoded as
    [utf8.DecodeRuneInString] does: a byte that starts no valid encoding
    (an invalid first byte, a missing or unacceptable later byte) is the
    rune [RuneError] of width 1. *)
Fixpoint runes (s : string) : list Z :=
  match s with
  | EmptyString => []
  | String p0 s1 =>
      let b0 := byte_val p0 in
      let invalid := RuneError :: runes s1 in
      if b0 <? RuneSelf then b0 :: runes s1
      else if (b0 <? 0xC2) || (0xF4 <? b0) then invalid
      else
        match s1 with
        | EmptyString => invalid
        | String p1 s2 =>
            if negb (accept b0 (byte_val p1)) then invalid
            else if b0 <? 0xE0 then rune2 b0 (byte_val p1) :: runes s2
            else
              match s2 with
              | EmptyString => invalid
              | String p2 s3 =>
                  if negb (continuation (byte_val p2)) then invalid
                  else if b0 <? 0xF0 then
                    rune3 b0 (byte_val p1) (byte_val p2) :: runes s3
                  else
                    match s3 with
                    | EmptyString => invalid
                    | String p3 s4 =>
                        if negb (continuation (byte_val p3)) then invalid
                        else rune4 b0 (byte_val p1) (byte_val p2)
                                   (byte_val p3) :: runes s4
                    end
              end
        end
  end.

(** The bytes of the rune U+FFFD. *)
Definition encodedRuneError : string :=
  String (to_byte 0xEF) (String (to_byte 0xBF) (String (to_byte 0xBD) "")).

(** [utf8.EncodeRune], as [Builder.WriteRune] appends it: a rune out of
    range or a surrogate is written as [RuneError]. *)
Definition EncodeRune (r : Z) : string :=
  if r <? 0 then encodedRuneError
  else if r <=? 0x7F then String (to_byte r) ""
  else if r <=? 0x7FF then
    String (to_byte (Z.lor 0xC0 (Z.shiftr r 6)))
      (String (to_byte (Z.lor 0x80 (Z.land r 0x3F))) "")
  else if (0x10FFFF <? r) || ((0xD800 <=? r) && (r <=? 0xDFFF)) then
    encodedRuneError
  else if r <=? 0xFFFF then
    String (to_byte (Z.lor 0xE0 (Z.shiftr r 12)))
      (String (to_byte (Z.lor 0x80 (Z.land (Z.shiftr r 6) 0x3F)))
         (String (to_byte (Z.lor 0x80 (Z.land r 0x3F))) ""))
  else
    String (to_byte (Z.lor 0xF0 (Z.shiftr r 18)))
      (String (to_byte (Z.lor 0x80 (Z.land (Z.shiftr r 12) 0x3F)))
         (String (to_byte (Z.lor 0x80 (Z.land (Z.shiftr r 6) 0x3F)))
            (String (to_byte (Z.lor 0x80 (Z.land r 0x3F))) ""))).

End utf8.

(** ** Package unicode *)

Module unicode.

(** [unicode.MaxASCII]. *)
Definition MaxASCII : Z := 0x7F.

(** The lower-case mapping [To(LowerCase, r)] of the table
    [unicode.CaseRanges], taken as given for the runes above ASCII.  No
    rune has a letter from A to Z as its lower case. *)
Class CaseTable : Type := mkCaseTable {
  ToLowerCase : Z -> Z;
  ToLowerCase_not_upper : forall r, 127 < r -> ~ (65 <= ToLowerCase r <= 90);
}.

(** [unicode.ToLower]. *)
Definition ToLower `{CaseTable} (r : Z) : Z :=
  if r <=? MaxASCII then
    if (65 <=? r) && (r <=? 90) then r + (97 - 65) else r
  else ToLowerCase r.

End unicode.

(** ** Package strings *)

Module strings.

(** [strings.Join(elems, sep)]. *)
Fixpoint Join (elems : list string) (sep : string) : string :=
  match elems with
  | [] => ""
  | [e] => e
  | e :: rest => e +:+ sep +:+ Join rest sep
  end.

(** The byte [c] of an ASCII string in lower case: [c += 'a' - 'A'] for
    the letters A to Z. *)
Definition lower (c : ascii) : ascii :=
  let n := nat_of_ascii c in
  if (65 <=? n)%nat && (n <=? 90)%nat then ascii_of_nat (n + 32) else c.

(** The first loop of [strings.ToLower]: whether every byte is below
    [utf8.RuneSelf], and whether a byte is a letter from A to Z. *)
Fixpoint isASCII (s : string) : bool :=
  match s with
  | EmptyString => true
  | String c rest => (utf8.byte_val c <? utf8.RuneSelf) && isASCII rest
  end.

Fixpoint hasUpper (s : string) : bool :=
  match s with
  | EmptyString => false
  | String c rest =>
      ((65 <=? utf8.byte_val c) && (utf8.byte_val c <=? 90)) || hasUpper rest
  end.

(** Its second loop, for a string of ASCII bytes. *)
Fixpoint lowerBytes (s : string) : string :=
  match s with
  | EmptyString => EmptyString
  | String c rest => String (lower c) (lowerBytes rest)
  end.

(** The output of [strings.Map] for the runes [rs] of its argument: the
    encoding of every mapped rune, a negative one being dropped. *)
Fixpoint writeRunes (mapping : Z -> Z) (rs : list Z) : string :=
  match rs with
  | [] => EmptyString
  | c :: rest =>
      let r := mapping c in
      if 0 <=? r then utf8.EncodeRune r +:+ writeRunes mapping rest
      else writeRunes mapping rest
  end.

(** [strings.Map(mapping, s)]: the runes of [s], as [range] yields them,
    are mapped and written; an invalid byte is the rune U+FFFD.  (Leaving a
    prefix of unchanged valid runes as it is, as the code does, writes the
    same bytes.) *)
Definition Map (mapping : Z -> Z) (s : string) : string :=
  writeRunes mapping (utf8.runes s).

(** [strings.ToLower]: an ASCII string is lower-cased byte by byte, and
    returned as it is when it holds no upper-case letter; any other string
    is mapped rune by rune with [unicode.ToLower]. *)
Definition ToLower `{T : unicode.CaseTable} (s : string) : string :=
  if isASCII s then
    if hasUpper s then lowerBytes s else s
  else Map unicode.ToLower s.

(** [strings.Contains(s, sep)] for a separator of one character. *)
Fixpoint ContainsChar (s : string) (sep : ascii) : bool :=
  match s with
  | EmptyString => false
  | String c rest => Ascii.eqb c sep || ContainsChar rest sep
  end.

(** [strings.Split(s, sep)] for a separator of one character: the pieces
    of [s] between the separators, at least one piece. *)
Fixpoint SplitChar (s : string) (sep : ascii) : list string :=
  match s with
  | EmptyString => [EmptyString]
  | String c rest =>
      if Ascii.eqb c sep then EmptyString :: SplitChar rest sep
      else match SplitChar rest sep with
           | [] => [String c EmptyString]
           | p :: ps => String c p :: ps
           end
  end.

End strings.

(** ** Package nat of docker/go-connections

    The library functions behind [nat.NewPort], which the resolver calls
    on the rendering of a default port. *)

Module nat.

(** [nat.Port]: a string of the form "port/proto". *)
Definition Port : Type := string.

(** [nat.PortBinding]. *)
Record PortBinding : Type := mkPortBinding {
  HostIP : string;
  HostPort : string;
}.

(** [nat.ParsePortRange]. *)
Definition ParsePortRange (ports : string) : Z * Z * option error :=
  if String.eqb ports "" then
    (0, 0, Some ErrEmptyPorts)
  else if negb (strings.ContainsChar ports "-"%char) then
    let '(start, err) := strconv.ParseUint16 ports in
    (start, start, err)
  else
    let parts := strings.SplitChar ports "-"%char in
    match strconv.ParseUint16 (List.nth 0 parts "") with
    | (_, Some err) => (0, 0, Some err)
    | (start, None) =>
        match strconv.ParseUint16 (List.nth 1 parts "") with
        | (_, Some err) => (0, 0, Some err)
        | (end_, None) =>
            if end_ <? start then (0, 0, Some (ErrInvalidRange ports))
            else (start, end_, None)
        end
    end.

(** [nat.ParsePortRangeToInt]. *)
Definition ParsePortRangeToInt (rawPort : string) : Z * Z * option error :=
  if (String.length rawPort =? 0)%nat then (0, 0, None)
  else
    match ParsePortRange rawPort with
    | (_, _, Some err) => (0, 0, Some err)
    | (start, end_, None) => (start, end_, None)
    end.

(** [nat.NewPort(proto, port)]. *)
Definition NewPort (proto port : string) : Port * option error :=
  match ParsePortRangeToInt port with
  | (_, _, Some err) => ("", Some err)
  | (portStartInt, portEndInt, None) =>
      if portStartInt =? portEndInt then
        (strconv.Itoa portStartInt +:+ "/" +:+ proto, None)
      else
        (strconv.Itoa portStartInt +:+ "-" +:+ strconv.Itoa portEndInt
           +:+ "/" +:+ proto, None)
  end.

End nat.


(** ** Package container of the docker API *)

Module container.

(** [container.Config], with the two fields the package sets. *)
Record Config : Type := mkConfig {
  Image : string;
  Env : list string;
}.

(** [container.HostConfig], with the one field the package sets. *)
Record HostConfig : Type := mkHostConfig {
  PortBindings : gmap nat.Port (list nat.PortBinding);
}.

End container.

(** ** Package services: the registry *)

Module services.

(** The registry of package [services], which the resolver takes as given:
    the enumeration [Service] with its [String] method
    ([Service_String]), the lookup
    [GetDefaultPort], returning Go's pair of a port and an error, and the
    slice [SupportedServices]. *)
Class Registry : Type := mkRegistry {
  Service : Type;
  Service_String : Service -> string;
  GetDefaultPort : Service -> Z * option error;
  SupportedServices : list Service;
}.

(** [services.ServiceConfig], fields [Service] and [Port].  A selection is
    a non-nil pointer to such a value; [Port] is 0 when the caller leaves it
    out. *)
Record ServiceConfig `{Registry} : Type := mkServiceConfig {
  cfgService : Service;
  cfgPort : Z;
}.

End services.

(** ** The world outside the package *)

(** Handles on a docker client and on the output stream of an image pull,
    and [context.Context]. *)
Inductive Client : Type := client (id : Datatypes.nat).
Inductive ReadCloser : Type := stream (id : Datatypes.nat).
Inductive Context : Type := Background.

(** The calls the package makes to its collaborators, with their
    arguments. *)
Inductive Call : Type :=
  | CallNewEnvClient
  | CallImagePull (c : Client) (ctx : Context) (ref : string)
  | CallCopyStdout (src : ReadCloser)
  | CallPrintf (msg : string)
  | CallContainerCreate (c : Client) (ctx : Context)
      (config : container.Config) (hostConfig : container.HostConfig)
      (containerName : string)
  | CallContainerStart (c : Client) (ctx : Context) (containerID : string)
  | CallContainerStop (c : Client) (ctx : Context) (containerID : string)
      (timeout : option Z)
  | CallSleep (d : Z).

(** What the collaborators answer.  Each answer may depend on everything
    that has been called so far, the call being answered included (the last
    element of the history); [MarshalIndent] is pure. *)
Class World : Type := mkWorld {
  NewEnvClient_answer : list Call -> Client * option error;
  ImagePull_answer : list Call -> ReadCloser * option error;
  Copy_answer : list Call -> Z * option error;
  ContainerCreate_answer : list Call -> string * option error;
  ContainerStart_answer : list Call -> option error;
  ContainerStop_answer : list Call -> option error;
  MarshalIndent_Config : container.Config -> string * option error;
  MarshalIndent_PortMap :
    gmap nat.Port (list nat.PortBinding) -> string * option error;
}.

(** A computation of the package: it reads the history of calls and
    extends it. *)
Definition M (A : Type) : Type := list Call -> A * list Call.

#[global] Instance M_ret : MRet M := fun A a h => (a, h).
#[global] Instance M_bind : MBind M :=
  fun A B f m h => let '(a, h') := m h in f a h'.

(** Makes the call [c] and answers it with [answer]. *)
Definition call {A : Type} (c : Call) (answer : list Call -> A) : M A :=
  fun h => (answer (h ++ [c]), h ++ [c]).

(** What a function call comes to: it returns its results or it panics. *)
Inductive outcome (A : Type) : Type :=
  | Return (a : A)
  | Panic (msg : string).
Arguments Return {A} a.
Arguments Panic {A} msg.

(** ** Package localstack *)

(** [ImageName]. *)
Definition ImageName : string := "docker.io/localstack/localstack".

(** [time.Second], in nanoseconds as [time.Duration] counts. *)
Definition Second : Z := 1000000000.

Module Localstack.

(** The struct [Localstack]; the two configurations are non-nil pointers. *)
Record t : Type := mk {
  ContainerID : string;
  dockerClient : Client;
  dockerContext : Context;
  containerConfig : container.Config;
  hostConfig : container.HostConfig;
}.

End Localstack.

Section Package.

Context `{R : services.Registry} `{T : unicode.CaseTable} `{W : World}.

Import services.

(** The calls of the collaborators as computations. *)
Definition NewEnvClient : M (Client * option error) :=
  call CallNewEnvClient NewEnvClient_answer.

Definition ImagePull (c : Client) (ctx : Context) (ref : string)
  : M (ReadCloser * option error) :=
  call (CallImagePull c ctx ref) ImagePull_answer.

Definition CopyStdout (src : ReadCloser) : M (Z * option error) :=
  call (CallCopyStdout src) Copy_answer.

Definition Printf (msg : string) : M unit :=
  call (CallPrintf msg) (fun _ => tt).

Definition ContainerCreate (c : Client) (ctx : Context)
    (config : container.Config) (hostConfig : container.HostConfig)
    (containerName : string) : M (string * option error) :=
  call (CallContainerCreate c ctx config hostConfig containerName)
       ContainerCreate_answer.

Definition ContainerStart (c : Client) (ctx : Context) (containerID : string)
  : M (option error) :=
  call (CallContainerStart c ctx containerID) ContainerStart_answer.

Definition ContainerStop (c : Client) (ctx : Context) (containerID : string)
    (timeout : option Z) : M (option error) :=
  call (CallContainerStop c ctx containerID timeout) ContainerStop_answer.

Definition Sleep (d : Z) : M unit :=
  call (CallSleep d) (fun _ => tt).

(** [Start]: the start call, then a sleep of five seconds. *)
Definition Start (l : Localstack.t) : M (option error) :=
  err ← ContainerStart (Localstack.dockerClient l)
          (Localstack.dockerContext l) (Localstack.ContainerID l);
  match err with
  | Some e => mret (Some e)
  | None =>
      let duration := Second * 5 in
      _ ← Sleep duration;
      mret None
  end.

(** [Stop]: the stop call with a nil timeout, then a sleep of five
    seconds. *)
Definition Stop (l : Localstack.t) : M (option error) :=
  err ← ContainerStop (Localstack.dockerClient l)
          (Localstack.dockerContext l) (Localstack.ContainerID l) None;
  match err with
  | Some e => mret (Some e)
  | None =>
      let duration := Second * 5 in
      _ ← Sleep duration;
      mret None
  end.

(** [pullImage].  The short variable declaration assigns the new client
    to the parameter [dockerClient], whose value at entry is never read. *)
Definition pullImage (dockerClient : Client) (img : string)
  : M (option error) :=
  let ctx := Background in
  '(dockerClient, err) ← NewEnvClient;
  match err with
  | Some e => mret (Some e)
  | None =>
      '(_, err) ← ImagePull dockerClient ctx img;
      match err with
      | Some e => mret (Some e)
      | None =>
          '(out, err) ← ImagePull dockerClient ctx img;
          match err with
          | Some e => mret (Some e)
          | None =>
              '(_, err) ← CopyStdout out;
              match err with
              | Some e => mret (Some e)
              | None =>
                  _ ← Printf ("Successfully pulled image " +:+ img);
                  mret None
              end
          end
      end
  end.

(** [containerConfig]: [names] is filled by appending in the order of the
    slice. *)
Definition containerConfig (img : string)
    (serviceConfigs : list ServiceConfig) : container.Config :=
  let conf := {| container.Image := img; container.Env := [] |} in
  let sb := "" in
  if (0 <? length serviceConfigs)%nat then
    let sb := sb +:+ "SERVICES=" in
    let names :=
      fold_left (fun names s => names ++ [Service_String (cfgService s)])
                serviceConfigs [] in
    let sb := sb +:+ strings.ToLower (strings.Join names ",") in
    {| container.Image := container.Image conf; container.Env := [sb] |}
  else conf.

(** [getMappingForServiceConfig]; on an error the port is the string
    "nil" and the slice is nil. *)
Definition getMappingForServiceConfig (cfg : ServiceConfig)
  : nat.Port * list nat.PortBinding * option error :=
  match GetDefaultPort (cfgService cfg) with
  | (_, Some err) => ("nil", [], Some err)
  | (def, None) =>
      let port := cfgPort cfg in
      let port := if cfgPort cfg <? 1 then def else port in
      match nat.NewPort "tcp" (strconv.Itoa def) with
      | (_, Some err) => ("nil", [], Some err)
      | (internalPort, None) =>
          (internalPort,
           [ {| nat.HostIP := "0.0.0.0";
                nat.HostPort := strconv.Itoa port |} ],
           None)
      end
  end.

(** [getMappingForService]. *)
Definition getMappingForService (s : Service)
  : nat.Port * list nat.PortBinding * option error :=
  match GetDefaultPort s with
  | (_, Some err) => ("nil", [], Some err)
  | (p, None) =>
      match nat.NewPort "tcp" (strconv.Itoa p) with
      | (_, Some err) => ("nil", [], Some err)
      | (internalPort, None) =>
          (internalPort,
           [ {| nat.HostIP := "0.0.0.0";
                nat.HostPort := strconv.Itoa p |} ],
           None)
      end
  end.

(** The loop of [hostConfig], the same for both slices: each element's
    binding is stored in [m] under its internal port, and the first error
    ends the loop with the map as filled so far. *)
Fixpoint rangeMappings {A : Type}
    (mapping : A -> nat.Port * list nat.PortBinding * option error)
    (l : list A) (m : gmap nat.Port (list nat.PortBinding))
  : gmap nat.Port (list nat.PortBinding) * option error :=
  match l with
  | [] => (m, None)
  | s :: rest =>
      match mapping s with
      | (_, _, Some err) => (m, Some err)
      | (internalPort, binding, None) =>
          rangeMappings mapping rest (<[internalPort := binding]> m)
      end
  end.

(** [hostConfig]: on an error of a loop the result is a nil pointer and
    the error. *)
Definition hostConfig (serviceConfigs : list ServiceConfig)
  : option container.HostConfig * option error :=
  let m : gmap nat.Port (list nat.PortBinding) := ∅ in
  let '(m, err) :=
    if (0 <? length serviceConfigs)%nat
    then rangeMappings getMappingForServiceConfig serviceConfigs m
    else rangeMappings getMappingForService SupportedServices m in
  match err with
  | Some e => (None, Some e)
  | None => (Some {| container.PortBindings := m |}, None)
  end.

(** [New].  The two [MarshalIndent] results are only logged; reading
    [PortBindings] through a nil [hostCfg] would panic. *)
Definition New (cfgs : list ServiceConfig)
  : M (outcome (option Localstack.t * option error)) :=
  '(dockerClient, err) ← NewEnvClient;
  match err with
  | Some e => mret (Return (None, Some e))
  | None =>
      err ← pullImage dockerClient ImageName;
      match err with
      | Some e => mret (Return (None, Some e))
      | None =>
          let containerCfg := containerConfig ImageName cfgs in
          let '(c, err) := MarshalIndent_Config containerCfg in
          _ ← match err with
              | None => Printf ("Container config is " +:+ c)
              | Some _ => mret tt
              end;
          let '(hostCfg, err) := hostConfig cfgs in
          match err with
          | Some e => mret (Return (None, Some e))
          | None =>
              match hostCfg with
              | None => mret (Panic "nil pointer dereference")
              | Some hostCfg =>
                  let '(h, err) :=
                    MarshalIndent_PortMap (container.PortBindings hostCfg) in
                  _ ← match err with
                      | None =>
                          Printf ("Host Config port bindings are " +:+ h)
                      | Some _ => mret tt
                      end;
                  let ctx := Background in
                  '(ID, err) ← ContainerCreate dockerClient ctx
                                 containerCfg hostCfg "";
                  match err with
                  | Some e => mret (Return (None, Some e))
                  | None =>
                      mret (Return
                              (Some (Localstack.mk ID dockerClient ctx
                                       containerCfg hostCfg),
                               None))
                  end
              end
          end
      end
  end.

End Package.

(** ** Predicates of the statements *)

(** The registry knows [s] and gives it the default port [p]. *)
Definition registered `{R : services.Registry}
    (s : services.Service) (p : Z) : Prop :=
  services.GetDefaultPort s = (p, None).

(** [p] is a TCP port number. *)
Definition tcp_port (p : Z) : Prop := 0 <= p <= 65535.

(** The internal port of the service whose default port is [p], as
    [nat.NewPort] renders it. *)
Definition internal_port (p : Z) : nat.Port := strconv.Itoa p +:+ "/tcp".

(** The binding to the external port [p] on every host address. *)
Definition binding_to (p : Z) : nat.PortBinding :=
  {| nat.HostIP := "0.0.0.0"; nat.HostPort := strconv.Itoa p |}.

(** The external port a selection asks for: its override when positive,
    the default [def] otherwise. *)
Definition external_port `{R : services.Registry}
    (cfg : services.ServiceConfig) (def : Z) : Z :=
  if 0 <? services.cfgPort cfg then services.cfgPort cfg else def.

(** Every supported service is registered with a TCP port. *)
Definition registry_complete `{R : services.Registry} : Prop :=
  ∀ s, s ∈ services.SupportedServices → ∃ p, registered s p ∧ tcp_port p.

(** No two services share a default port. *)
Definition registry_unique `{R : services.Registry} : Prop :=
  ∀ s1 s2 p, registered s1 p → registered s2 p → s1 = s2.

(** The services a resolution looks up: those of the selections, or every
    supported service when there is no selection. *)
Definition resolved_services `{R : services.Registry}
    (cfgs : list services.ServiceConfig) : list services.Service :=
  match cfgs with
  | [] => services.SupportedServices
  | _ => map services.cfgService cfgs
  end.

(** The port under which the resolver stores the binding of a service. *)
Definition key_of `{R : services.Registry} (s : services.Service) : nat.Port :=
  internal_port (services.GetDefaultPort s).1.

(** The bindings the resolver stores for a selection and for a supported
    service. *)
Definition val_of_config `{R : services.Registry}
    (cfg : services.ServiceConfig) : list nat.PortBinding :=
  [binding_to (external_port cfg
                 (services.GetDefaultPort (services.cfgService cfg)).1)].

Definition val_of_service `{R : services.Registry}
    (s : services.Service) : list nat.PortBinding :=
  [binding_to (services.GetDefaultPort s).1].

(** The table [m] after storing, in the order of [l], the binding [val s]
    under the port [key s] for every element [s] of [l]. *)
Definition stored {A : Type} (key : A → nat.Port)
    (val : A → list nat.PortBinding)
    (m : gmap nat.Port (list nat.PortBinding)) (l : list A)
  : gmap nat.Port (list nat.PortBinding) :=
  foldl (λ m s, <[key s := val s]> m) m l.

(** ** A registry and a family of worlds to evaluate the package on *)

Module demo.

(** Modelled from the spec: package [services] is not among the sources.
    The spec names an object-storage, a notification and a queueing service
    with the default ports 4572, 4575 and 4576, the ports of the session
    constructors [S3Session], [SNSSession] and [SQSSession]; [Other] stands
    for a value outside the supported set, whose lookup fails. *)
Inductive Service : Type := S3 | SNS | SQS | Other (code : Z).

(** Modelled from the spec: the [String] method, which the spec leaves to
    the enumeration; the names are those of the session constructors. *)
Definition String (s : Service) : string :=
  match s with
  | S3 => "S3"
  | SNS => "SNS"
  | SQS => "SQS"
  | Other code => "Service(" +:+ strconv.Itoa code +:+ ")"
  end.

(** Modelled from the spec: [GetDefaultPort], which fails for a value
    outside the supported set. *)
Definition GetDefaultPort (s : Service) : Z * option error :=
  match s with
  | S3 => (4572, None)
  | SNS => (4575, None)
  | SQS => (4576, None)
  | Other _ => (0, Some (ErrService "unsupported service"))
  end.

(** Modelled from the spec: the registry, with [SupportedServices] its
    three keys. *)
Definition registry : services.Registry :=
  {| services.Service := Service;
     services.Service_String := String;
     services.GetDefaultPort := GetDefaultPort;
     services.SupportedServices := [S3; SNS; SQS] |}.

(** A lower-case table for the letters of Latin-1: the entries of
    [unicode.CaseRanges] for U+00C0 to U+00D6 and U+00D8 to U+00DE, which
    lie 32 below their lower case; this table keeps every other rune. *)
Definition latin1 (r : Z) : Z :=
  if ((0xC0 <=? r) && (r <=? 0xD6)) || ((0xD8 <=? r) && (r <=? 0xDE))
  then r + 32 else r.

Definition table : unicode.CaseTable :=
  {| unicode.ToLowerCase := latin1;
     unicode.ToLowerCase_not_upper :=
       ltac:(intros r Hr; unfold latin1; destruct (_ || _); lia) |}.

(** A selection of the registry. *)
Definition select (s : Service) (port : Z) : @services.ServiceConfig registry :=
  @services.mkServiceConfig registry s port.

(** The error with which the call number [i] fails when [i] is in
    [failing]; calls are numbered from 0 in the order they are made. *)
Definition fails (failing : list Datatypes.nat) (h : list Call)
  : option error :=
  if bool_decide (pred (length h) ∈ failing)
  then Some (ErrRuntime "daemon unreachable") else None.

(** A world whose calls fail exactly at the positions [failing]. *)
Definition world (failing : list Datatypes.nat) : World :=
  {| NewEnvClient_answer := fun h => (client (length h), fails failing h);
     ImagePull_answer := fun h => (stream (length h), fails failing h);
     Copy_answer := fun h => (0, fails failing h);
     ContainerCreate_answer := fun h => ("c0ffee", fails failing h);
     ContainerStart_answer := fun h => fails failing h;
     ContainerStop_answer := fun h => fails failing h;
     MarshalIndent_Config := fun _ => ("{}", None);
     MarshalIndent_PortMap := fun _ => ("{}", None) |}.

End demo.

(** ** Further predicates of the statements *)

(** The selection of [s] that leaves the port out. *)
Definition without_override `{R : services.Registry}
    (s : services.Service) : services.ServiceConfig :=
  @services.mkServiceConfig R s 0.

(** The call creates a container; the call writes a line to the log. *)
Definition is_create (c : Call) : bool :=
  match c with
  | CallContainerCreate _ _ _ _ _ => true
  | _ => false
  end.

Definition is_printf (c : Call) : bool :=
  match c with
  | CallPrintf _ => true
  | _ => false
  end.

(** The character is one of the letters A to Z. *)
Definition is_upper (c : ascii) : bool :=
  let n := nat_of_ascii c in (65 <=? n)%nat && (n <=? 90)%nat.

(** * Properties *)

Example Itoa_examples :
  strconv.Itoa 4572 = "4572" /\ strconv.Itoa 0 = "0" /\ strconv.Itoa (-7) = "-7".
Proof. repeat split; reflexivity. Qed.

Example NewPort_examples :
  nat.NewPort "tcp" "4572" = ("4572/tcp", None)
  /\ nat.NewPort "tcp" "-7" = ("", Some (ErrSyntax "ParseUint" ""))
  /\ nat.NewPort "tcp" "65536" = ("", Some (ErrRange "ParseUint" "65536"))
  /\ nat.NewPort "tcp" "80-90" = ("80-90/tcp", None).
Proof. repeat split; reflexivity. Qed.

Example hostConfig_S3_9000 :
  @hostConfig demo.registry [demo.select demo.S3 9000]
  = (Some {| container.PortBindings :=
               {[ "4572/tcp" := [ {| nat.HostIP := "0.0.0.0";
                                    nat.HostPort := "9000" |} ] ]} |},
     None).
Proof. vm_compute. reflexivity. Qed.

Example containerConfig_S3_9000 :
  container.Env (@containerConfig demo.registry demo.table ImageName
                   [demo.select demo.S3 9000; demo.select demo.SQS 0])
  = ["SERVICES=s3,sqs"].
Proof. reflexivity. Qed.

(** ** strconv: rendering and parsing agree *)

Section Strconv.

Import strconv.

(** The digits of a natural number parse back to it. *)
Lemma uint_of_string_Itoa (p : Z) :
  0 <= p →
  ∃ d, NilZero.uint_of_string (Itoa p) = Some d ∧ Z.of_uint d = p.
Proof.
  intros Hp. destruct p as [|q|q]; [| |lia].
  - exists Decimal.zero. split; reflexivity.
  - exists (Pos.to_uint q). unfold Itoa. simpl. split.
    + apply NilZero.usu, DecimalPos.Unsigned.to_uint_nonnil.
    + unfold Z.of_uint. now rewrite DecimalPos.Unsigned.of_to.
Qed.

Lemma ParseUint16_Itoa (p : Z) :
  0 <= p <= 65535 → ParseUint16 (Itoa p) = (p, None).
Proof.
  intros Hp. destruct (uint_of_string_Itoa p) as (d & Hd & Hv); [lia|].
  unfold ParseUint16. rewrite Hd, Hv.
  destruct (Z.leb_spec p 65535); [reflexivity | lia].
Qed.

Lemma ParseUint16_Itoa_large (p : Z) :
  65535 < p →
  ParseUint16 (Itoa p) = (65535, Some (ErrRange "ParseUint" (Itoa p))).
Proof.
  intros Hp. destruct (uint_of_string_Itoa p) as (d & Hd & Hv); [lia|].
  unfold ParseUint16. rewrite Hd, Hv.
  destruct (Z.leb_spec p 65535); [lia | reflexivity].
Qed.

(** A string of digits holds no minus sign. *)
Lemma digits_no_minus (s : string) (d : Decimal.uint) :
  NilEmpty.uint_of_string s = Some d → strings.ContainsChar s "-" = false.
Proof.
  revert d. induction s as [|c s IH]; intros d; simpl; [reflexivity|].
  destruct (NilEmpty.uint_of_string s) as [d'|] eqn:Hs; [|discriminate].
  intros Hc. rewrite (IH d' eq_refl), orb_false_r.
  apply uint_of_char_spec in Hc.
  repeat (destruct Hc as [[-> _] | Hc]; [reflexivity|]).
  destruct Hc as [-> _]. reflexivity.
Qed.

Lemma Itoa_no_minus (p : Z) :
  0 <= p → strings.ContainsChar (Itoa p) "-" = false.
Proof.
  intros Hp. destruct (uint_of_string_Itoa p Hp) as (d & Hd & _).
  unfold NilZero.uint_of_string in Hd.
  destruct (Itoa p) eqn:E; [discriminate|].
  exact (digits_no_minus _ _ Hd).
Qed.

(** A rendering starts with a digit or a minus sign. *)
Lemma Itoa_nonempty (p : Z) : ∃ c s, Itoa p = String c s.
Proof.
  assert (Hu : ∀ u, ∃ c s, NilZero.string_of_uint u = String c s)
    by (intros []; simpl; eauto).
  unfold Itoa. destruct (Z.to_int p); simpl; eauto.
Qed.

Lemma Itoa_negative (p : Z) : p < 0 → ∃ s, Itoa p = String "-" s.
Proof. destruct p; try lia. intros _. unfold Itoa. simpl. eauto. Qed.

(** Distinct integers have distinct renderings. *)
Lemma Itoa_inj (p q : Z) : Itoa p = Itoa q → p = q.
Proof.
  assert (Hparse : ∀ z, NilZero.int_of_string (Itoa z) = Some (Z.to_int z)).
  { intros z. apply NilZero.isi; destruct z; simpl; intros [= E];
      try discriminate;
      exact (DecimalPos.Unsigned.to_uint_nonnil _ E). }
  intros E. apply DecimalZ.to_int_inj.
  pose proof (Hparse p) as Hp. rewrite E, Hparse in Hp. congruence.
Qed.

End Strconv.

(** ** nat: the port of a rendered integer *)

Section NatPort.

Import strconv.

(** [NewPort] accepts the rendering of a TCP port number and yields the
    port "p/tcp". *)
Lemma NewPort_Itoa (p : Z) :
  tcp_port p → nat.NewPort "tcp" (Itoa p) = (internal_port p, None).
Proof.
  intros Hp. unfold nat.NewPort, nat.ParsePortRangeToInt, nat.ParsePortRange.
  destruct (Itoa_nonempty p) as (c & s & E).
  assert (Hne : String.eqb (Itoa p) "" = false) by now rewrite E.
  assert (Hlen : (String.length (Itoa p) =? 0)%nat = false) by now rewrite E.
  rewrite Hlen, Hne, Itoa_no_minus by apply Hp. simpl negb. cbv iota.
  rewrite ParseUint16_Itoa by exact Hp.
  now rewrite Z.eqb_refl.
Qed.

(** It rejects the rendering of a negative number: the piece in front of
    the minus sign is empty. *)
Lemma NewPort_Itoa_negative (p : Z) :
  p < 0 → nat.NewPort "tcp" (Itoa p) = ("", Some (ErrSyntax "ParseUint" "")).
Proof.
  intros Hp. destruct (Itoa_negative p Hp) as (s & E).
  unfold nat.NewPort, nat.ParsePortRangeToInt, nat.ParsePortRange.
  rewrite E. reflexivity.
Qed.

(** It rejects the rendering of a number beyond 16 bits. *)
Lemma NewPort_Itoa_large (p : Z) :
  65535 < p →
  nat.NewPort "tcp" (Itoa p) = ("", Some (ErrRange "ParseUint" (Itoa p))).
Proof.
  intros Hp. unfold nat.NewPort, nat.ParsePortRangeToInt, nat.ParsePortRange.
  destruct (Itoa_nonempty p) as (c & s & E).
  assert (Hne : String.eqb (Itoa p) "" = false) by now rewrite E.
  assert (Hlen : (String.length (Itoa p) =? 0)%nat = false) by now rewrite E.
  rewrite Hlen, Hne, Itoa_no_minus by lia. simpl negb. cbv iota.
  now rewrite ParseUint16_Itoa_large by exact Hp.
Qed.

(** Appending the same suffix keeps strings apart. *)
Lemma append_length (s t : string) :
  String.length (s +:+ t) = (String.length s + String.length t)%nat.
Proof. induction s as [|a s IH]; simpl; [reflexivity | now rewrite IH]. Qed.

Lemma append_cancel_r (s s' t : string) : s +:+ t = s' +:+ t → s = s'.
Proof.
  revert s'. induction s as [|a s IH]; intros [|b s'] E; simpl in E.
  - reflexivity.
  - apply (f_equal String.length) in E.
    change (String.length t = S (String.length (s' +:+ t))) in E.
    rewrite append_length in E. lia.
  - apply (f_equal String.length) in E.
    change (S (String.length (s +:+ t)) = String.length t) in E.
    rewrite append_length in E. lia.
  - injection E as -> E. f_equal. now apply IH.
Qed.

(** Distinct default ports give distinct internal ports. *)
Lemma internal_port_inj (p q : Z) : internal_port p = internal_port q → p = q.
Proof.
  unfold internal_port. intros E. now apply append_cancel_r, Itoa_inj in E.
Qed.

End NatPort.

(** ** The loop of the resolver *)

Section RangeMappings.

Context {A : Type}.
Variable mapping : A → nat.Port * list nat.PortBinding * option error.
Variable key : A → nat.Port.
Variable val : A → list nat.PortBinding.

(** When no element fails, the loop stores every binding and ends without
    an error. *)
Lemma rangeMappings_all_ok (l : list A) m :
  (∀ s, s ∈ l → mapping s = (key s, val s, None)) →
  rangeMappings mapping l m = (stored key val m l, None).
Proof.
  revert m. induction l as [|s l IH]; intros m Hok; simpl; [reflexivity|].
  rewrite (Hok s) by left. apply IH. intros s' Hs'. apply Hok. now right.
Qed.

(** When an element fails, the loop ends with an error. *)
Lemma rangeMappings_some_error (l : list A) m s :
  s ∈ l → (mapping s).2 ≠ None →
  ∃ s' p b e m', s' ∈ l ∧ mapping s' = (p, b, Some e)
                 ∧ rangeMappings mapping l m = (m', Some e).
Proof.
  revert m. induction l as [|x l IH]; intros m Hin Hfail.
  - inversion Hin.
  - simpl. destruct (mapping x) as [[p b] [e|]] eqn:Hx.
    + exists x, p, b, e, m. split; [left | auto].
    + assert (Hs : s ∈ l).
      { apply elem_of_cons in Hin as [->|Hin]; [|exact Hin].
        rewrite Hx in Hfail. now destruct Hfail. }
      destruct (IH (<[p:=b]> m) Hs Hfail) as (s' & p' & b' & e & m' & ? & ? & ?).
      exists s', p', b', e, m'. split; [now right | auto].
Qed.

(** The first error ends the loop, with the table as filled so far. *)
Lemma rangeMappings_first_error (l1 l2 : list A) s p b e m :
  (∀ s', s' ∈ l1 → mapping s' = (key s', val s', None)) →
  mapping s = (p, b, Some e) →
  rangeMappings mapping (l1 ++ s :: l2) m = (stored key val m l1, Some e).
Proof.
  revert m. induction l1 as [|x l1 IH]; intros m Hok Hs; simpl.
  - now rewrite Hs.
  - rewrite (Hok x) by left. apply IH; [|exact Hs].
    intros s' Hs'. apply Hok. now right.
Qed.

Lemma stored_snoc m (l : list A) s :
  stored key val m (l ++ [s]) = <[key s := val s]> (stored key val m l).
Proof. unfold stored. now rewrite foldl_app. Qed.

(** A port that no element of [l] maps to keeps its entry. *)
Lemma stored_lookup_other (l : list A) m k :
  (∀ s, s ∈ l → key s ≠ k) → stored key val m l !! k = m !! k.
Proof.
  induction l as [|s l IH] using rev_ind; intros Hk; [reflexivity|].
  rewrite stored_snoc, lookup_insert_ne.
  - apply IH. intros s' Hs'. apply Hk, elem_of_app. now left.
  - apply Hk, elem_of_app. right. now left.
Qed.

(** The last element that maps to a port decides its entry. *)
Lemma stored_lookup_last (l1 l2 : list A) s m :
  (∀ s', s' ∈ l2 → key s' ≠ key s) →
  stored key val m (l1 ++ s :: l2) !! key s = Some (val s).
Proof.
  intros Hk. unfold stored. rewrite foldl_app. simpl.
  fold (stored key val (<[key s:=val s]> (foldl (λ m s, <[key s:=val s]> m) m l1)) l2).
  rewrite stored_lookup_other by exact Hk. apply lookup_insert_eq.
Qed.

(** Every entry is an entry of the table at the start or the binding of an
    element. *)
Lemma stored_lookup_Some (l : list A) m k v :
  stored key val m l !! k = Some v →
  m !! k = Some v ∨ ∃ s, s ∈ l ∧ key s = k ∧ val s = v.
Proof.
  induction l as [|s l IH] using rev_ind; intros Hv; [now left|].
  rewrite stored_snoc in Hv.
  destruct (decide (key s = k)) as [E|E].
  - rewrite E, lookup_insert_eq in Hv. right. exists s.
    split; [apply elem_of_app; right; left | split; congruence].
  - rewrite lookup_insert_ne in Hv by exact E.
    destruct (IH Hv) as [?|(s' & ? & ? & ?)]; [now left|].
    right. exists s'. split; [apply elem_of_app; now left | auto].
Qed.

(** When the binding is a function of the port, every element finds its
    binding in the table. *)
Lemma stored_lookup_elem (l : list A) m s :
  (∀ s1 s2, s1 ∈ l → s2 ∈ l → key s1 = key s2 → val s1 = val s2) →
  s ∈ l → stored key val m l !! key s = Some (val s).
Proof.
  induction l as [|x l IH] using rev_ind; intros Hfun Hin; [inversion Hin|].
  rewrite stored_snoc.
  destruct (decide (key x = key s)) as [E|E].
  - rewrite E, lookup_insert_eq. f_equal.
    apply Hfun; [apply elem_of_app; right; left | exact Hin | exact E].
  - rewrite lookup_insert_ne by exact E. apply IH.
    + intros s1 s2 H1 H2. apply Hfun; apply elem_of_app; now left.
    + apply elem_of_app in Hin as [Hin|Hin]; [exact Hin|].
      apply list_elem_of_singleton in Hin. congruence.
Qed.

(** Distinct elements with distinct ports fill one entry each. *)
Lemma stored_size (l : list A) :
  NoDup l →
  (∀ s1 s2, s1 ∈ l → s2 ∈ l → key s1 = key s2 → s1 = s2) →
  size (stored key val ∅ l) = length l.
Proof.
  induction l as [|x l IH] using rev_ind; intros Hnd Hinj; [reflexivity|].
  apply NoDup_app in Hnd as (Hnd & Hx & _).
  rewrite stored_snoc, map_size_insert_None, length_app, IH; simpl.
  - lia.
  - exact Hnd.
  - intros s1 s2 H1 H2. apply Hinj; apply elem_of_app; now left.
  - rewrite stored_lookup_other; [apply lookup_empty|].
    intros s Hs E. apply (Hx s Hs).
    rewrite (Hinj s x); [left | | | exact E]; apply elem_of_app;
      [now left | right; left].
Qed.

End RangeMappings.

(** ** The port-mapping resolver *)

Section Resolver.

Context `{R : services.Registry}.

Import services.

(** The mapping of a selection whose service is registered with a TCP
    port. *)
Lemma getMappingForServiceConfig_ok (cfg : ServiceConfig) (def : Z) :
  registered (cfgService cfg) def → tcp_port def →
  getMappingForServiceConfig cfg
  = (internal_port def, [binding_to (external_port cfg def)], None).
Proof.
  unfold registered, getMappingForServiceConfig. intros -> Hport.
  rewrite NewPort_Itoa by exact Hport. unfold external_port, binding_to.
  destruct (Z.ltb_spec (cfgPort cfg) 1), (Z.ltb_spec 0 (cfgPort cfg));
    (reflexivity || lia).
Qed.

(** The mapping of a service that is registered with a TCP port. *)
Lemma getMappingForService_ok (s : Service) (p : Z) :
  registered s p → tcp_port p →
  getMappingForService s = (internal_port p, [binding_to p], None).
Proof.
  unfold registered, getMappingForService. intros -> Hport.
  now rewrite NewPort_Itoa by exact Hport.
Qed.

(** A failed lookup is the result of either mapping, next to the port
    "nil" and a nil slice. *)
Lemma getMappingForServiceConfig_lookup_error (cfg : ServiceConfig) x e :
  GetDefaultPort (cfgService cfg) = (x, Some e) →
  getMappingForServiceConfig cfg = ("nil", [], Some e).
Proof. unfold getMappingForServiceConfig. now intros ->. Qed.

Lemma getMappingForService_lookup_error (s : Service) x e :
  GetDefaultPort s = (x, Some e) →
  getMappingForService s = ("nil", [], Some e).
Proof. unfold getMappingForService. now intros ->. Qed.

(** A default that is no TCP port number is refused by [nat.NewPort], and
    the mapping fails although the lookup succeeded. *)
Lemma getMappingForService_bad_port (s : Service) (p : Z) :
  registered s p → ¬ tcp_port p →
  ∃ e, getMappingForService s = ("nil", [], Some e).
Proof.
  unfold registered, getMappingForService, tcp_port. intros -> Hport.
  destruct (Z.lt_ge_cases p 0) as [Hneg|Hpos].
  - rewrite NewPort_Itoa_negative by exact Hneg. eauto.
  - rewrite NewPort_Itoa_large by lia. eauto.
Qed.

(** Whether the mapping of a selection fails, and how, depends on its
    service only. *)
Lemma getMappingForServiceConfig_error (cfg : ServiceConfig) :
  (getMappingForServiceConfig cfg).2 = (getMappingForService (cfgService cfg)).2.
Proof.
  unfold getMappingForServiceConfig, getMappingForService.
  destruct (GetDefaultPort (cfgService cfg)) as [def [e|]]; [reflexivity|].
  now destruct (nat.NewPort "tcp" (strconv.Itoa def)) as [p [e|]].
Qed.

(** A mapping that succeeds yields one binding. *)
Lemma getMappingForServiceConfig_single (cfg : ServiceConfig) p bs :
  getMappingForServiceConfig cfg = (p, bs, None) → ∃ b, bs = [b].
Proof.
  unfold getMappingForServiceConfig.
  destruct (GetDefaultPort (cfgService cfg)) as [def [e|]]; [discriminate|].
  destruct (nat.NewPort "tcp" (strconv.Itoa def)) as [q [e|]];
    [discriminate|]. intros [= _ <-]. eauto.
Qed.

Lemma getMappingForService_single (s : Service) p bs :
  getMappingForService s = (p, bs, None) → ∃ b, bs = [b].
Proof.
  unfold getMappingForService.
  destruct (GetDefaultPort s) as [def [e|]]; [discriminate|].
  destruct (nat.NewPort "tcp" (strconv.Itoa def)) as [q [e|]];
    [discriminate|]. intros [= _ <-]. eauto.
Qed.

(** The loop keeps a table of one-binding entries such, whether it ends
    with an error or not. *)
Lemma rangeMappings_single {A : Type}
    (mapping : A → nat.Port * list nat.PortBinding * option error)
    (l : list A) m :
  (∀ s p bs, mapping s = (p, bs, None) → ∃ b, bs = [b]) →
  map_Forall (λ _ bs, ∃ b, bs = [b]) m →
  map_Forall (λ _ bs, ∃ b : nat.PortBinding, bs = [b])
             (rangeMappings mapping l m).1.
Proof.
  intros Hone. revert m. induction l as [|s l IH]; intros m Hm; simpl.
  - exact Hm.
  - destruct (mapping s) as [[p bs] [e|]] eqn:Hs; [exact Hm|].
    apply IH, map_Forall_insert_2; [eauto | exact Hm].
Qed.

(** [hostConfig] in terms of its two loops. *)
Lemma hostConfig_selections (c : ServiceConfig) (cfgs : list ServiceConfig) :
  hostConfig (c :: cfgs)
  = match rangeMappings getMappingForServiceConfig (c :: cfgs) ∅ with
    | (_, Some e) => (None, Some e)
    | (m, None) => (Some {| container.PortBindings := m |}, None)
    end.
Proof.
  unfold hostConfig. simpl length. cbv iota beta.
  change (0 <? S (length cfgs))%nat with true. cbv iota.
  now destruct (rangeMappings _ _ _) as [m [e|]].
Qed.

Lemma hostConfig_supported :
  hostConfig []
  = match rangeMappings getMappingForService SupportedServices ∅ with
    | (_, Some e) => (None, Some e)
    | (m, None) => (Some {| container.PortBindings := m |}, None)
    end.
Proof.
  unfold hostConfig. simpl.
  now destruct (rangeMappings _ _ _) as [m [e|]].
Qed.

(** [hostConfig] returns a table and no error, or an error and no table. *)
Lemma hostConfig_result (cfgs : list ServiceConfig) :
  (∃ hc, hostConfig cfgs = (Some hc, None))
  ∨ (∃ e, hostConfig cfgs = (None, Some e)).
Proof.
  destruct cfgs as [|c cfgs];
    [rewrite hostConfig_supported | rewrite hostConfig_selections];
    destruct (rangeMappings _ _ _) as [m [e|]]; eauto.
Qed.

(** When every selection's service is registered with a TCP port, the
    table holds the selections' bindings, stored in their order. *)
Lemma hostConfig_selections_ok (c : ServiceConfig) (cfgs : list ServiceConfig) :
  (∀ c', c' ∈ c :: cfgs → ∃ p, registered (cfgService c') p ∧ tcp_port p) →
  hostConfig (c :: cfgs)
  = (Some {| container.PortBindings :=
               stored (λ c', key_of (cfgService c')) val_of_config
                      ∅ (c :: cfgs) |}, None).
Proof.
  intros Hreg. rewrite hostConfig_selections.
  rewrite (rangeMappings_all_ok _ (λ c', key_of (cfgService c')) val_of_config);
    [reflexivity|].
  intros c' Hc'. destruct (Hreg c' Hc') as (p & Hp & Hport).
  rewrite (getMappingForServiceConfig_ok c' p Hp Hport).
  unfold key_of, val_of_config. unfold registered in Hp. now rewrite Hp.
Qed.

(** When the registry is complete, the table for no selection holds the
    bindings of the supported services. *)
Lemma hostConfig_supported_ok :
  registry_complete →
  hostConfig []
  = (Some {| container.PortBindings :=
               stored key_of val_of_service ∅ SupportedServices |}, None).
Proof.
  intros Hreg. rewrite hostConfig_supported.
  rewrite (rangeMappings_all_ok _ key_of val_of_service); [reflexivity|].
  intros s Hs. destruct (Hreg s Hs) as (p & Hp & Hport).
  rewrite (getMappingForService_ok s p Hp Hport).
  unfold key_of, val_of_service. unfold registered in Hp. now rewrite Hp.
Qed.

(** C1. For a selection whose service the registry gives the default
    TCP port [def], the mapping succeeds with one binding: the internal port
    is the port of [def], the host is 0.0.0.0, and the external port is the
    selection's override when that is positive and [def] when it is zero or
    negative. *)
Theorem C1_selection_ports (cfg : ServiceConfig) (def : Z) :
  registered (cfgService cfg) def → tcp_port def →
  ∃ b, getMappingForServiceConfig cfg
         = (strconv.Itoa def +:+ "/tcp", [b], None)
       ∧ nat.HostIP b = "0.0.0.0"
       ∧ (0 < cfgPort cfg → nat.HostPort b = strconv.Itoa (cfgPort cfg))
       ∧ (cfgPort cfg <= 0 → nat.HostPort b = strconv.Itoa def).
Proof.
  intros Hreg Hport. exists (binding_to (external_port cfg def)).
  split; [exact (getMappingForServiceConfig_ok cfg def Hreg Hport)|].
  unfold binding_to, external_port. simpl.
  destruct (Z.ltb_spec 0 (cfgPort cfg)); repeat split; (reflexivity || lia).
Qed.

(** C2. With a registry that knows every supported service at a TCP port,
    the resolver turns the empty selection list into a table that binds, for
    every supported service, the port of its default to that same default on
    0.0.0.0, and that holds nothing else; with distinct supported services
    and distinct defaults the table has one entry per supported service. *)
Theorem C2_no_selection_binds_supported_services :
  registry_complete →
  ∃ m, hostConfig [] = (Some {| container.PortBindings := m |}, None)
     ∧ (∀ s p, s ∈ SupportedServices → registered s p →
          m !! (strconv.Itoa p +:+ "/tcp")
          = Some [ {| nat.HostIP := "0.0.0.0";
                      nat.HostPort := strconv.Itoa p |} ])
     ∧ (∀ k bs, m !! k = Some bs →
          ∃ s p, s ∈ SupportedServices ∧ registered s p
                 ∧ k = strconv.Itoa p +:+ "/tcp"
                 ∧ bs = [ {| nat.HostIP := "0.0.0.0";
                             nat.HostPort := strconv.Itoa p |} ])
     ∧ (registry_unique → NoDup SupportedServices →
          size m = length SupportedServices).
Proof.
  intros Hreg. eexists. split; [exact (hostConfig_supported_ok Hreg)|].
  assert (Hdef : ∀ s p, registered s p → (GetDefaultPort s).1 = p)
    by (unfold registered; now intros s p ->).
  split; [|split].
  - intros s p Hs Hp.
    replace (strconv.Itoa p +:+ "/tcp") with (key_of s)
      by (unfold key_of; now rewrite (Hdef s p Hp)).
    replace [ {| nat.HostIP := "0.0.0.0"; nat.HostPort := strconv.Itoa p |} ]
      with (val_of_service s)
      by (unfold val_of_service; now rewrite (Hdef s p Hp)).
    apply stored_lookup_elem; [|exact Hs].
    intros s1 s2 _ _ E. unfold val_of_service. unfold key_of in E.
    now rewrite (internal_port_inj _ _ E).
  - intros k bs Hk. apply stored_lookup_Some in Hk as [Hk|(s & Hs & <- & <-)].
    + now rewrite lookup_empty in Hk.
    + destruct (Hreg s Hs) as (p & Hp & _). exists s, p.
      unfold key_of, val_of_service. rewrite (Hdef s p Hp). auto.
  - intros Huniq Hnd. apply stored_size; [exact Hnd|].
    intros s1 s2 H1 H2 E. unfold key_of in E. apply internal_port_inj in E.
    destruct (Hreg s1 H1) as (p1 & Hp1 & _), (Hreg s2 H2) as (p2 & Hp2 & _).
    rewrite (Hdef s1 p1 Hp1), (Hdef s2 p2 Hp2) in E. subst p2.
    exact (Huniq s1 s2 p1 Hp1 Hp2).
Qed.

(** C3. When the lookup of the default port fails for a service the
    resolution looks up, [hostConfig] returns a nil table and an error, the
    error with which the mapping of one of these services fails. *)
Theorem C3_failed_lookup_aborts (cfgs : list ServiceConfig) (s : Service)
    (x : Z) (e : error) :
  s ∈ resolved_services cfgs → GetDefaultPort s = (x, Some e) →
  ∃ s' e', s' ∈ resolved_services cfgs
           ∧ (getMappingForService s').2 = Some e'
           ∧ hostConfig cfgs = (None, Some e').
Proof.
  intros Hs Hfail. destruct cfgs as [|c cfgs].
  - simpl in Hs. rewrite hostConfig_supported.
    destruct (rangeMappings_some_error getMappingForService
                SupportedServices ∅ s Hs) as (s' & p & b & e' & m' & ? & Hs' & ->).
    { now rewrite (getMappingForService_lookup_error s x e Hfail). }
    exists s', e'. simpl. rewrite Hs'. auto.
  - rewrite hostConfig_selections.
    change (resolved_services (c :: cfgs)) with (map cfgService (c :: cfgs)) in *.
    apply list_elem_of_fmap in Hs as (c0 & -> & Hc0).
    destruct (rangeMappings_some_error getMappingForServiceConfig
                (c :: cfgs) ∅ c0 Hc0) as (c' & p & b & e' & m' & Hin & Hc' & ->).
    { now rewrite (getMappingForServiceConfig_lookup_error c0 x e Hfail). }
    exists (cfgService c'), e'. split; [|split; [|reflexivity]].
    + apply list_elem_of_fmap. eauto.
    + now rewrite <- getMappingForServiceConfig_error, Hc'.
Qed.

(** C5. With distinct defaults and every selection's service registered at
    a TCP port, [hostConfig] succeeds whatever services repeat in the list,
    and the entry of a service is the binding of its last selection. *)
Theorem C5_last_selection_wins (l1 l2 : list ServiceConfig)
    (c : ServiceConfig) (def : Z) :
  registry_unique →
  (∀ c', c' ∈ l1 ++ c :: l2 → ∃ p, registered (cfgService c') p ∧ tcp_port p) →
  registered (cfgService c) def →
  (∀ c', c' ∈ l2 → cfgService c' ≠ cfgService c) →
  ∃ m, hostConfig (l1 ++ c :: l2)
         = (Some {| container.PortBindings := m |}, None)
     ∧ m !! (strconv.Itoa def +:+ "/tcp")
       = Some [ {| nat.HostIP := "0.0.0.0";
                   nat.HostPort := strconv.Itoa (external_port c def) |} ].
Proof.
  intros Huniq Hreg Hdef Hlast.
  assert (Hdef' : (GetDefaultPort (cfgService c)).1 = def)
    by (unfold registered in Hdef; now rewrite Hdef).
  assert (Hok : ∃ m, hostConfig (l1 ++ c :: l2)
                     = (Some {| container.PortBindings := m |}, None)
                   ∧ m = stored (λ c', key_of (cfgService c')) val_of_config
                                ∅ (l1 ++ c :: l2)).
  { destruct (l1 ++ c :: l2) as [|c0 l] eqn:E.
    - now destruct l1.
    - eexists. split; [apply (hostConfig_selections_ok c0 l Hreg) | reflexivity]. }
  destruct Hok as (m & -> & ->). eexists. split; [reflexivity|].
  replace (strconv.Itoa def +:+ "/tcp") with (key_of (cfgService c))
    by (unfold key_of; now rewrite Hdef').
  replace [ {| nat.HostIP := "0.0.0.0";
               nat.HostPort := strconv.Itoa (external_port c def) |} ]
    with (val_of_config c) by (unfold val_of_config; now rewrite Hdef').
  apply (stored_lookup_last (λ c', key_of (cfgService c')) val_of_config).
  intros c' Hc' E. apply (Hlast c' Hc').
  unfold key_of in E. apply internal_port_inj in E.
  destruct (Hreg c') as (p & Hp & _);
    [apply elem_of_app; right; now right|].
  assert ((GetDefaultPort (cfgService c')).1 = p)
    by (unfold registered in Hp; now rewrite Hp).
  apply (Huniq _ _ p Hp). congruence.
Qed.

(** C8. Every entry of a table that [hostConfig] returns holds a list of
    exactly one binding. *)
Theorem C8_one_binding_per_entry (cfgs : list ServiceConfig)
    (hc : container.HostConfig) (err : option error)
    (k : nat.Port) (bs : list nat.PortBinding) :
  hostConfig cfgs = (Some hc, err) →
  container.PortBindings hc !! k = Some bs →
  ∃ b, bs = [b].
Proof.
  intros Hhc Hk.
  assert (Hall : map_Forall (λ _ bs, ∃ b : nat.PortBinding, bs = [b])
                            (container.PortBindings hc)).
  { destruct cfgs as [|c cfgs];
      [rewrite hostConfig_supported in Hhc
      |rewrite hostConfig_selections in Hhc].
    - pose proof (rangeMappings_single getMappingForService SupportedServices ∅
                    getMappingForService_single (map_Forall_empty _)) as Hinv.
      destruct (rangeMappings _ _ _) as [m [e|]]; [discriminate|].
      now injection Hhc as <- _.
    - pose proof (rangeMappings_single getMappingForServiceConfig (c :: cfgs) ∅
                    getMappingForServiceConfig_single (map_Forall_empty _))
        as Hinv.
      destruct (rangeMappings _ _ _) as [m [e|]]; [discriminate|].
      now injection Hhc as <- _. }
  exact (Hall k bs Hk).
Qed.

End Resolver.

(** ** utf8 and strings: lower-casing around a comma *)

Section ToLowerFacts.

Context `{T : unicode.CaseTable}.

(** One step of the loop over the runes of a string. *)
Lemma runes_cons (p0 : ascii) (s1 : string) :
  utf8.runes (String p0 s1)
  = let b0 := utf8.byte_val p0 in
    let invalid := utf8.RuneError :: utf8.runes s1 in
    if b0 <? utf8.RuneSelf then b0 :: utf8.runes s1
    else if (b0 <? 0xC2) || (0xF4 <? b0) then invalid
    else
      match s1 with
      | EmptyString => invalid
      | String p1 s2 =>
          if negb (utf8.accept b0 (utf8.byte_val p1)) then invalid
          else if b0 <? 0xE0 then
            utf8.rune2 b0 (utf8.byte_val p1) :: utf8.runes s2
          else
            match s2 with
            | EmptyString => invalid
            | String p2 s3 =>
                if negb (utf8.continuation (utf8.byte_val p2)) then invalid
                else if b0 <? 0xF0 then
                  utf8.rune3 b0 (utf8.byte_val p1) (utf8.byte_val p2)
                  :: utf8.runes s3
                else
                  match s3 with
                  | EmptyString => invalid
                  | String p3 s4 =>
                      if negb (utf8.continuation (utf8.byte_val p3))
                      then invalid
                      else utf8.rune4 b0 (utf8.byte_val p1) (utf8.byte_val p2)
                                      (utf8.byte_val p3) :: utf8.runes s4
                  end
            end
      end.
Proof. reflexivity. Qed.

(** An ASCII byte is a rune of its own. *)
Lemma runes_ascii_head (c : ascii) (s : string) :
  utf8.byte_val c < 128 →
  utf8.runes (String c s) = utf8.byte_val c :: utf8.runes s.
Proof.
  intros Hc. rewrite runes_cons. cbv zeta.
  destruct (Z.ltb_spec (utf8.byte_val c) utf8.RuneSelf) as [_|Hge];
    [reflexivity | unfold utf8.RuneSelf in Hge; lia].
Qed.

(** An ASCII byte continues no encoding. *)
Lemma accept_ascii (b0 b : Z) : b < 128 → utf8.accept b0 b = false.
Proof.
  intros Hb. unfold utf8.accept.
  destruct (b0 =? 0xE0), (b0 =? 0xF0); cbv zeta;
    (apply andb_false_intro1; apply Z.leb_gt; lia).
Qed.

Lemma continuation_ascii (b : Z) : b < 128 → utf8.continuation b = false.
Proof.
  intros Hb. unfold utf8.continuation.
  apply andb_false_intro1. apply Z.leb_gt. lia.
Qed.

(** An ASCII byte [c] ends the encoding before it: the runes of a string
    with [c] in it are the runes before [c], then [c], then the runes
    after it. *)
Lemma runes_app_ascii (a b : string) (c : ascii) :
  utf8.byte_val c < 128 →
  utf8.runes (a +:+ String c b)
  = utf8.runes a ++ utf8.byte_val c :: utf8.runes b.
Proof.
  intros Hc.
  pose proof (λ b0, accept_ascii b0 _ Hc) as Hacc.
  pose proof (continuation_ascii _ Hc) as Hcont.
  pose proof (λ s, runes_ascii_head c s Hc) as Hhead.
  assert (Hall : ∀ n a, (String.length a < n)%nat →
            utf8.runes (a +:+ String c b)
            = utf8.runes a ++ utf8.byte_val c :: utf8.runes b).
  { clear a. induction n as [|n IH]; intros a Hlen; [lia|].
    destruct a as [|p0 s1]; [exact (Hhead b)|].
    pose proof (IH s1 ltac:(simpl in Hlen; lia)) as IH1.
    change (String p0 s1 +:+ String c b) with (String p0 (s1 +:+ String c b)).
    rewrite !(runes_cons p0). cbv zeta. rewrite IH1.
    destruct (utf8.byte_val p0 <? utf8.RuneSelf); [reflexivity|].
    destruct ((utf8.byte_val p0 <? 0xC2) || (0xF4 <? utf8.byte_val p0));
      [reflexivity|].
    destruct s1 as [|p1 s2].
    { change ("" +:+ String c b) with (String c b). cbv iota.
      now rewrite Hacc. }
    pose proof (IH s2 ltac:(simpl in Hlen; lia)) as IH2.
    change (String p1 s2 +:+ String c b) with (String p1 (s2 +:+ String c b)).
    cbv iota.
    destruct (negb (utf8.accept _ (utf8.byte_val p1))); [reflexivity|].
    destruct (utf8.byte_val p0 <? 0xE0); [now rewrite IH2|].
    destruct s2 as [|p2 s3].
    { change ("" +:+ String c b) with (String c b). cbv iota.
      now rewrite Hcont. }
    pose proof (IH s3 ltac:(simpl in Hlen; lia)) as IH3.
    change (String p2 s3 +:+ String c b) with (String p2 (s3 +:+ String c b)).
    cbv iota.
    destruct (negb (utf8.continuation (utf8.byte_val p2))); [reflexivity|].
    destruct (utf8.byte_val p0 <? 0xF0); [now rewrite IH3|].
    destruct s3 as [|p3 s4].
    { change ("" +:+ String c b) with (String c b). cbv iota.
      now rewrite Hcont. }
    pose proof (IH s4 ltac:(simpl in Hlen; lia)) as IH4.
    change (String p3 s4 +:+ String c b) with (String p3 (s4 +:+ String c b)).
    cbv iota.
    destruct (negb (utf8.continuation (utf8.byte_val p3))); [reflexivity|].
    now rewrite IH4. }
  exact (Hall (S (String.length a)) a (Nat.lt_succ_diag_r _)).
Qed.

Lemma writeRunes_app (mapping : Z → Z) (l1 l2 : list Z) :
  strings.writeRunes mapping (l1 ++ l2)
  = strings.writeRunes mapping l1 +:+ strings.writeRunes mapping l2.
Proof.
  induction l1 as [|c l1 IH]; [reflexivity|].
  change ((c :: l1) ++ l2) with (c :: (l1 ++ l2)).
  cbn [strings.writeRunes]. cbv zeta. rewrite IH.
  destruct (0 <=? mapping c); [|reflexivity].
  generalize (utf8.EncodeRune (mapping c)) as e.
  generalize (strings.writeRunes mapping l1) as u.
  generalize (strings.writeRunes mapping l2) as v.
  intros v u e. induction e as [|x e IHe]; [reflexivity|].
  change (String x (e +:+ u +:+ v) = String x ((e +:+ u) +:+ v)).
  now rewrite IHe.
Qed.

(** An ASCII byte is mapped and written as the second loop of
    [strings.ToLower] writes it. *)
Lemma ToLower_ascii_byte (c : ascii) :
  (utf8.byte_val c <? utf8.RuneSelf) = true →
  (0 <=? unicode.ToLower (utf8.byte_val c)) = true
  ∧ utf8.EncodeRune (unicode.ToLower (utf8.byte_val c))
    = String (strings.lower c) "".
Proof.
  destruct c as [[] [] [] [] [] [] [] []]; intros H;
    try discriminate H; split; reflexivity.
Qed.

(** The second loop keeps a byte that is no upper-case letter. *)
Lemma lower_fixed (c : ascii) :
  (65 <=? utf8.byte_val c) && (utf8.byte_val c <=? 90) = false →
  strings.lower c = c.
Proof.
  destruct c as [[] [] [] [] [] [] [] []]; intros H;
    try discriminate H; reflexivity.
Qed.

Lemma lowerBytes_fixed (s : string) :
  strings.hasUpper s = false → strings.lowerBytes s = s.
Proof.
  induction s as [|c s IH]; [reflexivity|]. simpl.
  intros H. apply orb_false_elim in H as [Hc Hs].
  now rewrite (lower_fixed c Hc), (IH Hs).
Qed.

Lemma runes_ascii (s : string) :
  strings.isASCII s = true →
  strings.writeRunes unicode.ToLower (utf8.runes s) = strings.lowerBytes s.
Proof.
  induction s as [|c s IH]; [reflexivity|].
  cbn [strings.isASCII]. intros H. apply andb_prop in H as [Hc Hs].
  rewrite runes_ascii_head
    by (apply Z.ltb_lt in Hc; unfold utf8.RuneSelf in Hc; lia).
  cbn [strings.writeRunes strings.lowerBytes]. cbv zeta.
  destruct (ToLower_ascii_byte c Hc) as [-> ->].
  now rewrite (IH Hs).
Qed.

(** The byte-wise path of [strings.ToLower] is a short cut: every string
    is lower-cased as [strings.Map] lower-cases it. *)
Lemma ToLower_Map (s : string) :
  strings.ToLower s = strings.Map unicode.ToLower s.
Proof.
  unfold strings.ToLower, strings.Map.
  destruct (strings.isASCII s) eqn:Hascii; [|reflexivity].
  rewrite (runes_ascii s Hascii).
  destruct (strings.hasUpper s) eqn:Hup; [reflexivity|].
  now rewrite lowerBytes_fixed.
Qed.

(** Lower-casing two strings with a comma between them lower-cases each:
    the comma is a rune of its own and has no other case. *)
Lemma ToLower_comma (a b : string) :
  strings.ToLower (a +:+ "," +:+ b)
  = strings.ToLower a +:+ "," +:+ strings.ToLower b.
Proof.
  rewrite !ToLower_Map. unfold strings.Map.
  change ("," +:+ b) with (String "," b).
  rewrite (runes_app_ascii a b ",") by (vm_compute; reflexivity).
  now rewrite writeRunes_app.
Qed.

End ToLowerFacts.

(** ** The environment composer *)

Section Composer.

Context `{R : services.Registry} `{T : unicode.CaseTable}.

Import services.

(** Appending one name per selection collects the names in order. *)
Lemma names_collected {A : Type} (f : A → string) (l : list A)
    (acc : list string) :
  fold_left (λ names s, names ++ [f s]) l acc = acc ++ map f l.
Proof.
  revert acc. induction l as [|s l IH]; intros acc; simpl.
  - now rewrite app_nil_r.
  - now rewrite IH, <- app_assoc.
Qed.

(** Lower-casing the joined names is joining the lower-cased names: the
    comma has no other case. *)
Lemma ToLower_Join (names : list string) :
  strings.ToLower (strings.Join names ",")
  = strings.Join (map strings.ToLower names) ",".
Proof.
  induction names as [|n [|n' names] IH]; try reflexivity.
  change (strings.Join (n :: n' :: names) ",")
    with (n +:+ "," +:+ strings.Join (n' :: names) ",").
  rewrite ToLower_comma, IH. reflexivity.
Qed.

(** C4. For a non-empty selection list the environment of the container
    configuration is the single string SERVICES= followed by the lower-case
    names of the selections' services, joined by commas in the order of the
    list; for the empty list it is empty. *)
Theorem C4_services_variable (img : string) (c : ServiceConfig)
    (cfgs : list ServiceConfig) :
  container.Env (containerConfig img (c :: cfgs))
  = [ "SERVICES=" +:+
      strings.Join
        (map (λ s, strings.ToLower (Service_String (cfgService s))) (c :: cfgs))
        "," ]
  ∧ container.Env (containerConfig img []) = [].
Proof.
  split; [|reflexivity].
  unfold containerConfig. change (0 <? length (c :: cfgs))%nat with true.
  cbv iota. cbn [container.Env]. rewrite names_collected, ToLower_Join.
  rewrite app_nil_l, map_map. reflexivity.
Qed.

End Composer.

(** ** The lifecycle manager *)

Section Lifecycle.

Context `{R : services.Registry} `{T : unicode.CaseTable} `{W : World}.

Import services.

(** Unfolds the sequencing of calls. *)
Ltac run := unfold mbind, M_bind, mret, M_ret, call; cbn beta.

(** C7. [Start] makes the start call; when that fails it returns the error,
    otherwise it sleeps five seconds and returns nil.  [Stop] does the same
    with the stop call, to which it passes a nil timeout. *)
Theorem C7_start_stop_settle (l : Localstack.t) (h : list Call) :
  let start := CallContainerStart (Localstack.dockerClient l)
                 (Localstack.dockerContext l) (Localstack.ContainerID l) in
  let stop := CallContainerStop (Localstack.dockerClient l)
                (Localstack.dockerContext l) (Localstack.ContainerID l) None in
  Start l h = match ContainerStart_answer (h ++ [start]) with
              | Some e => (Some e, h ++ [start])
              | None => (None, h ++ [start; CallSleep 5000000000])
              end
  ∧ Stop l h = match ContainerStop_answer (h ++ [stop]) with
               | Some e => (Some e, h ++ [stop])
               | None => (None, h ++ [stop; CallSleep 5000000000])
               end.
Proof.
  intros start stop. unfold Start, Stop, ContainerStart, ContainerStop, Sleep.
  run. fold start stop.
  destruct (ContainerStart_answer (h ++ [start])),
           (ContainerStop_answer (h ++ [stop]));
    rewrite <- ?app_assoc; split; reflexivity.
Qed.

(** C9. Once its client is built, [pullImage] pulls the image [img] twice
    with that client.  A failure of the first pull, of the second pull or
    of the copy is returned at once; the stream of the first pull is used
    nowhere, the stream of the second pull is copied to the standard
    output, after which the success is logged. *)
Theorem C9_two_pulls (c0 c : Client) (img : string) (h : list Call) :
  let h1 := h ++ [CallNewEnvClient] in
  let h2 := h1 ++ [CallImagePull c Background img] in
  let h3 := h2 ++ [CallImagePull c Background img] in
  NewEnvClient_answer h1 = (c, None) →
  (∀ out1 e, ImagePull_answer h2 = (out1, Some e) →
     pullImage c0 img h = (Some e, h2))
  ∧ (∀ out1, ImagePull_answer h2 = (out1, None) →
       (∀ out2 e, ImagePull_answer h3 = (out2, Some e) →
          pullImage c0 img h = (Some e, h3))
       ∧ (∀ out2, ImagePull_answer h3 = (out2, None) →
            let h4 := h3 ++ [CallCopyStdout out2] in
            (∀ n e, Copy_answer h4 = (n, Some e) →
               pullImage c0 img h = (Some e, h4))
            ∧ (∀ n, Copy_answer h4 = (n, None) →
                 pullImage c0 img h
                 = (None,
                    h4 ++ [CallPrintf ("Successfully pulled image " +:+ img)])))).
Proof.
  intros h1 h2 h3 Hc.
  unfold pullImage, NewEnvClient, ImagePull, CopyStdout, Printf. run.
  fold h1. rewrite Hc. fold h2. split.
  - intros out1 e E1. now rewrite E1.
  - intros out1 E1. rewrite E1. fold h3. split.
    + intros out2 e E2. now rewrite E2.
    + intros out2 E2. rewrite E2. cbv zeta.
      split; [intros n e E3 | intros n E3]; now rewrite E3.
Qed.

(** When the client cannot be built, [pullImage] returns that error
    without a pull. *)
Lemma pullImage_client_error (c0 c : Client) (img : string) (h : list Call)
    (e : error) :
  NewEnvClient_answer (h ++ [CallNewEnvClient]) = (c, Some e) →
  pullImage c0 img h = (Some e, h ++ [CallNewEnvClient]).
Proof.
  intros Hc. unfold pullImage, NewEnvClient. run. now rewrite Hc.
Qed.

(** C10. [pullImage] does not depend on the client it is given: the result
    and the calls made are the same for any two clients. *)
Theorem C10_pullImage_ignores_client (c1 c2 : Client) (img : string)
    (h : list Call) :
  pullImage c1 img h = pullImage c2 img h.
Proof. reflexivity. Qed.

(** The steps at which [New] fails: it returns the error of the step and a
    nil handle. *)
Lemma New_client_error (cfgs : list ServiceConfig) (h : list Call)
    (c : Client) (e : error) :
  NewEnvClient_answer (h ++ [CallNewEnvClient]) = (c, Some e) →
  New cfgs h = (Return (None, Some e), h ++ [CallNewEnvClient]).
Proof. intros Hc. unfold New, NewEnvClient. run. now rewrite Hc. Qed.

Lemma New_pull_error (cfgs : list ServiceConfig) (h h' : list Call)
    (c : Client) (e : error) :
  NewEnvClient_answer (h ++ [CallNewEnvClient]) = (c, None) →
  pullImage c ImageName (h ++ [CallNewEnvClient]) = (Some e, h') →
  New cfgs h = (Return (None, Some e), h').
Proof.
  intros Hc Hpull. unfold New, NewEnvClient. run. now rewrite Hc, Hpull.
Qed.

Lemma New_resolver_error (cfgs : list ServiceConfig) (h h' : list Call)
    (c : Client) (e : error) :
  NewEnvClient_answer (h ++ [CallNewEnvClient]) = (c, None) →
  pullImage c ImageName (h ++ [CallNewEnvClient]) = (None, h') →
  hostConfig cfgs = (None, Some e) →
  ∃ h'', New cfgs h = (Return (None, Some e), h'').
Proof.
  intros Hc Hpull Hhost. unfold New, NewEnvClient, Printf. run.
  rewrite Hc, Hpull, Hhost.
  destruct (MarshalIndent_Config _) as [cs [e'|]]; eauto.
Qed.

Lemma New_create (cfgs : list ServiceConfig) (h h' : list Call)
    (c : Client) (hc : container.HostConfig) :
  NewEnvClient_answer (h ++ [CallNewEnvClient]) = (c, None) →
  pullImage c ImageName (h ++ [CallNewEnvClient]) = (None, h') →
  hostConfig cfgs = (Some hc, None) →
  ∃ h'', let create := CallContainerCreate c Background
                         (containerConfig ImageName cfgs) hc "" in
    New cfgs h
    = (match ContainerCreate_answer (h'' ++ [create]) with
       | (_, Some e) => Return (None, Some e)
       | (ID, None) =>
           Return (Some (Localstack.mk ID c Background
                           (containerConfig ImageName cfgs) hc), None)
       end, h'' ++ [create]).
Proof.
  intros Hc Hpull Hhost. unfold New, NewEnvClient, Printf, ContainerCreate.
  run. rewrite Hc, Hpull, Hhost.
  destruct (MarshalIndent_Config _) as [cs [e1|]];
    destruct (MarshalIndent_PortMap _) as [hs [e2|]];
    [ exists h'
    | exists (h' ++ [CallPrintf ("Host Config port bindings are " +:+ hs)])
    | exists (h' ++ [CallPrintf ("Container config is " +:+ cs)])
    | exists ((h' ++ [CallPrintf ("Container config is " +:+ cs)])
                ++ [CallPrintf ("Host Config port bindings are " +:+ hs)]) ];
    cbv zeta;
    destruct (ContainerCreate_answer _) as [ID [e|]]; reflexivity.
Qed.

(** C6. [New] fails at the step that fails: when its client cannot be
    built, when the image pull fails, when the resolver rejects the
    selections or when the container cannot be created, [New] returns the
    error of that step and a nil handle, having made the calls up to that
    step (and log lines) only; when every step succeeds it returns the
    handle of the created container and a nil error.  In every case it
    returns without a panic, and the handle is nil exactly when the error
    is not. *)
Theorem C6_New_handle_or_error (cfgs : list ServiceConfig) (h : list Call) :
  let h1 := h ++ [CallNewEnvClient] in
  (∀ c e, NewEnvClient_answer h1 = (c, Some e) →
          New cfgs h = (Return (None, Some e), h1))
  ∧ (∀ c, NewEnvClient_answer h1 = (c, None) →
       (∀ e h2, pullImage c ImageName h1 = (Some e, h2) →
                New cfgs h = (Return (None, Some e), h2))
       ∧ (∀ h2, pullImage c ImageName h1 = (None, h2) →
            (∀ e, hostConfig cfgs = (None, Some e) →
                  ∃ logs, New cfgs h = (Return (None, Some e), h2 ++ logs)
                          ∧ Forall (λ call, is_printf call = true) logs)
            ∧ (∀ hc, hostConfig cfgs = (Some hc, None) →
                 ∃ logs,
                   Forall (λ call, is_printf call = true) logs
                   ∧ let create := CallContainerCreate c Background
                                     (containerConfig ImageName cfgs) hc "" in
                     let h3 := (h2 ++ logs) ++ [create] in
                     (∀ ID e, ContainerCreate_answer h3 = (ID, Some e) →
                              New cfgs h = (Return (None, Some e), h3))
                     ∧ (∀ ID, ContainerCreate_answer h3 = (ID, None) →
                          New cfgs h
                          = (Return
                               (Some (Localstack.mk ID c Background
                                        (containerConfig ImageName cfgs) hc),
                                None), h3)))))
  ∧ (∃ handle err h', New cfgs h = (Return (handle, err), h')
                      ∧ (handle = None ↔ err ≠ None)).
Proof.
  intros h1. split; [|split].
  - intros c e Hc. exact (New_client_error cfgs h c e Hc).
  - intros c Hc. split.
    + intros e h2 Hpull. exact (New_pull_error cfgs h h2 c e Hc Hpull).
    + intros h2 Hpull. split.
      * intros e Hhost. unfold New, NewEnvClient, Printf. run.
        fold h1. rewrite Hc, Hpull, Hhost.
        destruct (MarshalIndent_Config _) as [cs [e1|]].
        -- exists []. now rewrite app_nil_r.
        -- eexists [_]. split; [reflexivity | now constructor].
      * intros hc Hhost.
        unfold New, NewEnvClient, Printf, ContainerCreate. run.
        fold h1. rewrite Hc, Hpull, Hhost.
        destruct (MarshalIndent_Config _) as [cs [e1|]];
          destruct (MarshalIndent_PortMap _) as [hs [e2|]];
          [ exists []
          | exists [CallPrintf ("Host Config port bindings are " +:+ hs)]
          | exists [CallPrintf ("Container config is " +:+ cs)]
          | exists [CallPrintf ("Container config is " +:+ cs);
                    CallPrintf ("Host Config port bindings are " +:+ hs)] ];
          (split; [repeat constructor|]); cbv zeta;
          rewrite <- ?app_assoc; cbn [app]; rewrite ?app_nil_r;
          (split; [intros ID e Hans | intros ID Hans]);
          rewrite <- ?app_assoc in Hans; cbn [app] in Hans;
          rewrite ?app_nil_r in Hans; now rewrite Hans.
  - destruct (NewEnvClient_answer (h ++ [CallNewEnvClient])) as [c [e|]] eqn:Hc.
    { rewrite (New_client_error cfgs h c e Hc).
      eexists _, _, _. split; [reflexivity|]. split; congruence. }
    destruct (pullImage c ImageName (h ++ [CallNewEnvClient])) as [[e|] h2]
      eqn:Hpull.
    { rewrite (New_pull_error cfgs h h2 c e Hc Hpull).
      eexists _, _, _. split; [reflexivity|]. split; congruence. }
    destruct (hostConfig_result cfgs) as [(hc & Hhost)|(e & Hhost)].
    + destruct (New_create cfgs h h2 c hc Hc Hpull Hhost) as (h3 & ->).
      cbv zeta. destruct (ContainerCreate_answer _) as [ID [e|]];
        eexists _, _, _; (split; [reflexivity|]); split; congruence.
    + destruct (New_resolver_error cfgs h h2 c e Hc Hpull Hhost) as (h3 & ->).
      eexists _, _, _. split; [reflexivity|]. split; congruence.
Qed.

End Lifecycle.

(** ** The statements on the registry of three services *)

Lemma demo_registry_complete : @registry_complete demo.registry.
Proof.
  intros s Hs. simpl in Hs.
  repeat (apply elem_of_cons in Hs as [->|Hs]);
    [exists 4572 | exists 4575 | exists 4576 | inversion Hs];
    (split; [reflexivity | unfold tcp_port; lia]).
Qed.

Lemma demo_registry_unique : @registry_unique demo.registry.
Proof.
  intros s1 s2 p. unfold registered. simpl.
  destruct s1, s2; simpl; intros H1 H2; congruence.
Qed.

Lemma demo_supported_NoDup :
  NoDup (@services.SupportedServices demo.registry).
Proof.
  simpl. repeat (apply NoDup_cons; split; [|]); try apply NoDup_nil_2;
    intros H; repeat (apply elem_of_cons in H as [H|H]; [discriminate|]);
    inversion H.
Qed.

(** The selection of S3 at port 9000 is bound from 4572/tcp to 9000. *)
Lemma C1_selection_ports_witness :
  ∃ b, @getMappingForServiceConfig demo.registry (demo.select demo.S3 9000)
         = ("4572/tcp", [b], None)
       ∧ nat.HostIP b = "0.0.0.0"
       ∧ (0 < 9000 → nat.HostPort b = "9000")
       ∧ (9000 <= 0 → nat.HostPort b = "4572").
Proof.
  apply (@C1_selection_ports demo.registry (demo.select demo.S3 9000) 4572);
    [reflexivity | unfold tcp_port; lia].
Defined.

(** No selection: the three services are bound at their defaults. *)
Lemma C2_no_selection_witness :
  ∃ m, @hostConfig demo.registry []
         = (Some {| container.PortBindings := m |}, None)
     ∧ m !! "4572/tcp" = Some [ {| nat.HostIP := "0.0.0.0";
                                   nat.HostPort := "4572" |} ]
     ∧ size m = 3%nat.
Proof.
  destruct (@C2_no_selection_binds_supported_services demo.registry
              demo_registry_complete) as (m & Hm & Hin & _ & Hsize).
  exists m. split; [exact Hm|]. split.
  - apply (Hin demo.S3 4572); [left | reflexivity].
  - exact (Hsize demo_registry_unique demo_supported_NoDup).
Defined.

(** A selection of a service outside the supported set, after one of S3. *)
Lemma C3_failed_lookup_witness :
  ∃ s' e', s' ∈ @resolved_services demo.registry
                  [demo.select demo.S3 9000; demo.select (demo.Other 7) 0]
           ∧ (@getMappingForService demo.registry s').2 = Some e'
           ∧ @hostConfig demo.registry
               [demo.select demo.S3 9000; demo.select (demo.Other 7) 0]
             = (None, Some e').
Proof.
  apply (@C3_failed_lookup_aborts demo.registry
           [demo.select demo.S3 9000; demo.select (demo.Other 7) 0]
           (demo.Other 7) 0 (ErrService "unsupported service")).
  - simpl. right. left.
  - reflexivity.
Defined.

(** S3 selected at 9000 and again at 9001: the entry binds to 9001. *)
Lemma C5_last_selection_witness :
  ∃ m, @hostConfig demo.registry
         [demo.select demo.S3 9000; demo.select demo.SNS 0;
          demo.select demo.S3 9001; demo.select demo.SQS 1]
         = (Some {| container.PortBindings := m |}, None)
     ∧ m !! "4572/tcp" = Some [ {| nat.HostIP := "0.0.0.0";
                                   nat.HostPort := "9001" |} ].
Proof.
  apply (@C5_last_selection_wins demo.registry
           [demo.select demo.S3 9000; demo.select demo.SNS 0]
           [demo.select demo.SQS 1] (demo.select demo.S3 9001) 4572).
  - exact demo_registry_unique.
  - intros c' Hc'. simpl in Hc'.
    repeat (apply elem_of_cons in Hc' as [->|Hc']);
      [exists 4572 | exists 4575 | exists 4572 | exists 4576 | inversion Hc'];
      (split; [reflexivity | unfold tcp_port; lia]).
  - reflexivity.
  - intros c' Hc'. apply list_elem_of_singleton in Hc' as ->. discriminate.
Defined.

(** The table for S3 at 9000 has one binding under 4572/tcp. *)
Lemma C8_one_binding_witness :
  ∃ b, [ {| nat.HostIP := "0.0.0.0"; nat.HostPort := "9000" |} ] = [b].
Proof.
  apply (@C8_one_binding_per_entry demo.registry
           [demo.select demo.S3 9000]
           {| container.PortBindings :=
                {[ "4572/tcp" := [ {| nat.HostIP := "0.0.0.0";
                                     nat.HostPort := "9000" |} ] ]} |}
           None "4572/tcp").
  - vm_compute. reflexivity.
  - vm_compute. reflexivity.
Defined.

(** In the world where no call fails, the image is pulled twice and the
    second stream is copied. *)
Lemma C9_two_pulls_witness :
  @pullImage (demo.world []) (client 0) ImageName []
  = (None,
     [CallNewEnvClient;
      CallImagePull (client 1) Background ImageName;
      CallImagePull (client 1) Background ImageName;
      CallCopyStdout (stream 3);
      CallPrintf ("Successfully pulled image " +:+ ImageName)]).
Proof.
  destruct (@C9_two_pulls (demo.world []) (client 0) (client 1) ImageName []
              eq_refl) as [_ Hpull].
  destruct (Hpull (stream 2) eq_refl) as [_ Hcopy].
  destruct (Hcopy (stream 3) eq_refl) as [_ Hlog].
  exact (Hlog 0 eq_refl).
Defined.

(** The client of the pull cannot be built: [New] returns that error
    after the two attempts to build a client. *)
Lemma C6_New_handle_or_error_witness :
  @New demo.registry demo.table (demo.world [1%nat])
    [demo.select demo.S3 9000] []
  = (Return (None, Some (ErrRuntime "daemon unreachable")),
     [CallNewEnvClient; CallNewEnvClient]).
Proof.
  destruct (@C6_New_handle_or_error demo.registry demo.table
              (demo.world [1%nat]) [demo.select demo.S3 9000] [])
    as (_ & Hclient & _).
  destruct (Hclient (client 1) eq_refl) as [Hpull _].
  exact (Hpull (ErrRuntime "daemon unreachable")
           [CallNewEnvClient; CallNewEnvClient] eq_refl).
Defined.

(** ** The package at work *)

Example ToLower_beyond_ASCII :
  @strings.ToLower demo.table "ÉCOLE,S3" = "école,s3"
  ∧ @strings.ToLower demo.table "S3,SQS" = "s3,sqs"
  ∧ utf8.runes "É,a€" = [0xC9; 0x2C; 0x61; 0x20AC].
Proof. repeat split; vm_compute; reflexivity. Qed.

Example ToLower_invalid_byte :
  @strings.ToLower demo.table (String (ascii_of_nat 255) "A")
  = utf8.encodedRuneError +:+ "a".
Proof. vm_compute. reflexivity. Qed.


Example containerConfig_no_selection :
  @containerConfig demo.registry demo.table ImageName []
  = {| container.Image := "docker.io/localstack/localstack";
       container.Env := [] |}.
Proof. reflexivity. Qed.

Example hostConfig_unsupported :
  @hostConfig demo.registry
    [demo.select demo.S3 9000; demo.select (demo.Other 7) 0]
  = (None, Some (ErrService "unsupported service")).
Proof. reflexivity. Qed.

Example pullImage_second_pull_fails :
  @pullImage (demo.world [2%nat]) (client 0) ImageName []
  = (Some (ErrRuntime "daemon unreachable"),
     [CallNewEnvClient;
      CallImagePull (client 1) Background ImageName;
      CallImagePull (client 1) Background ImageName]).
Proof. reflexivity. Qed.

Example New_container_create_fails :
  (@New demo.registry demo.table (demo.world [8%nat]) [demo.select demo.S3 9000] []).1
  = Return (None, Some (ErrRuntime "daemon unreachable")).
Proof. vm_compute. reflexivity. Qed.

Example Stop_fails :
  @Stop (demo.world [0%nat])
    (Localstack.mk "c0ffee" (client 1) Background
       (@containerConfig demo.registry demo.table ImageName [])
       {| container.PortBindings := ∅ |}) []
  = (Some (ErrRuntime "daemon unreachable"),
     [CallContainerStop (client 1) Background "c0ffee" None]).
Proof. reflexivity. Qed.

(** * Further properties of the package *)

(** ** More on the loop of the resolver *)

Section RangeMappingsMore.

Context {A : Type}.
Variable key : A → nat.Port.
Variable val : A → list nat.PortBinding.

(** The loop depends on the mapping through its values on the list. *)
Lemma rangeMappings_ext
    (f g : A → nat.Port * list nat.PortBinding * option error)
    (l : list A) m :
  (∀ s, s ∈ l → f s = g s) → rangeMappings f l m = rangeMappings g l m.
Proof.
  revert m. induction l as [|s l IH]; intros m Heq; simpl; [reflexivity|].
  rewrite <- (Heq s) by left.
  destruct (f s) as [[p b] [e|]]; [reflexivity|].
  apply IH. intros s' Hs'. apply Heq. now right.
Qed.

Lemma rangeMappings_fmap {B : Type}
    (f : A → nat.Port * list nat.PortBinding * option error)
    (g : B → A) (l : list B) m :
  rangeMappings f (map g l) m = rangeMappings (λ b, f (g b)) l m.
Proof.
  revert m. induction l as [|s l IH]; intros m; simpl; [reflexivity|].
  destruct (f (g s)) as [[p b] [e|]]; [reflexivity | apply IH].
Qed.

(** A loop that ends without an error met no failing element. *)
Lemma rangeMappings_ok_inv
    (f : A → nat.Port * list nat.PortBinding * option error)
    (l : list A) m m' :
  rangeMappings f l m = (m', None) → ∀ s, s ∈ l → (f s).2 = None.
Proof.
  revert m. induction l as [|x l IH]; intros m Hok s Hs.
  - inversion Hs.
  - simpl in Hok. destruct (f x) as [[p b] [e|]] eqn:Hx; [discriminate|].
    apply elem_of_cons in Hs as [->|Hs]; [now rewrite Hx | eauto].
Qed.

(** The ports of the table are the ports of the elements. *)
Lemma stored_dom (l : list A) m :
  dom (stored key val m l) = dom m ∪ list_to_set (map key l).
Proof.
  induction l as [|s l IH] using rev_ind; simpl.
  - now rewrite union_empty_r_L.
  - rewrite stored_snoc, dom_insert_L, IH, map_app, list_to_set_app_L.
    simpl. rewrite union_empty_r_L, (comm_L (∪) {[key s]}).
    now rewrite (assoc_L (∪)).
Qed.

(** The table has at most one entry per element. *)
Lemma stored_size_le (l : list A) :
  (size (stored key val ∅ l) ≤ length l)%nat.
Proof.
  induction l as [|s l IH] using rev_ind; [reflexivity|].
  rewrite stored_snoc, length_app. simpl.
  destruct (stored key val ∅ l !! key s) as [v|] eqn:E.
  - rewrite map_size_insert_Some by eauto. lia.
  - rewrite map_size_insert_None by exact E. lia.
Qed.

(** When the binding is a function of the port, the order of the elements
    does not matter. *)
Lemma stored_Permutation (l l' : list A) :
  (∀ s1 s2, s1 ∈ l → s2 ∈ l → key s1 = key s2 → val s1 = val s2) →
  l ≡ₚ l' → stored key val ∅ l = stored key val ∅ l'.
Proof.
  intros Hfun Hperm.
  assert (Hfun' : ∀ s1 s2, s1 ∈ l' → s2 ∈ l' → key s1 = key s2 →
                           val s1 = val s2).
  { intros s1 s2 H1 H2. apply Hfun; now rewrite Hperm. }
  assert (Hsub : ∀ l1 l2 : list A,
             (∀ s1 s2, s1 ∈ l2 → s2 ∈ l2 → key s1 = key s2 → val s1 = val s2) →
             (∀ s, s ∈ l1 → s ∈ l2) → ∀ k v,
             stored key val ∅ l1 !! k = Some v →
             stored key val ∅ l2 !! k = Some v).
  { intros l1 l2 Hf Hin k v Hk.
    apply stored_lookup_Some in Hk as [Hk|(s & Hs & <- & <-)].
    - now rewrite lookup_empty in Hk.
    - apply stored_lookup_elem; auto. }
  apply map_eq. intros k.
  destruct (stored key val ∅ l !! k) as [v|] eqn:E.
  - symmetry. apply (Hsub l l' Hfun'); [|exact E].
    intros s Hs. now rewrite <- Hperm.
  - destruct (stored key val ∅ l' !! k) as [v|] eqn:E'; [|reflexivity].
    rewrite <- E. apply (Hsub l' l Hfun); [|exact E'].
    intros s Hs. now rewrite Hperm.
Qed.

End RangeMappingsMore.

(** A function that is injective on the images of a list without
    repetition among them. *)
Lemma NoDup_fmap_inj {A B : Type} (f : A → B) (l : list A) (x y : A) :
  NoDup (map f l) → x ∈ l → y ∈ l → f x = f y → x = y.
Proof.
  induction l as [|a l IH]; intros Hnd Hx Hy E; [inversion Hx|].
  simpl in Hnd. apply NoDup_cons in Hnd as [Ha Hnd].
  apply elem_of_cons in Hx as [->|Hx]; apply elem_of_cons in Hy as [->|Hy].
  - reflexivity.
  - destruct Ha. rewrite E. apply list_elem_of_fmap. eauto.
  - destruct Ha. rewrite <- E. apply list_elem_of_fmap. eauto.
  - now apply IH.
Qed.

(** ** More on the port-mapping resolver *)

Section ResolverMore.

Context `{R : services.Registry}.

Import services.

(** A mapping that succeeds comes from a service registered with a TCP
    port. *)
Lemma getMappingForService_ok_inv (s : Service) :
  (getMappingForService s).2 = None → ∃ p, registered s p ∧ tcp_port p.
Proof.
  unfold getMappingForService.
  destruct (GetDefaultPort s) as [p [e|]] eqn:Hs; [discriminate|].
  intros Hok. exists p. split; [exact Hs|]. unfold tcp_port.
  destruct (Z.lt_ge_cases p 0) as [Hneg|Hpos].
  { now rewrite NewPort_Itoa_negative in Hok by exact Hneg. }
  destruct (Z.le_gt_cases p 65535) as [Hle|Hgt]; [lia|].
  now rewrite NewPort_Itoa_large in Hok by lia.
Qed.

(** The error of [hostConfig] is the error of its loop. *)
Lemma hostConfig_selections_error (c : ServiceConfig)
    (cfgs : list ServiceConfig) :
  (hostConfig (c :: cfgs)).2
  = (rangeMappings getMappingForServiceConfig (c :: cfgs) ∅).2.
Proof.
  rewrite hostConfig_selections.
  now destruct (rangeMappings _ _ _) as [m [e|]].
Qed.

(** A table is returned only when every service looked up is registered
    with a TCP port. *)
Lemma hostConfig_ok_inv (cfgs : list ServiceConfig) (hc : container.HostConfig)
    (err : option error) :
  hostConfig cfgs = (Some hc, err) →
  ∀ s, s ∈ resolved_services cfgs → ∃ p, registered s p ∧ tcp_port p.
Proof.
  intros Hhc s Hs. apply getMappingForService_ok_inv.
  destruct cfgs as [|c cfgs].
  - rewrite hostConfig_supported in Hhc.
    destruct (rangeMappings _ _ _) as [m [e|]] eqn:Hloop; [discriminate|].
    exact (rangeMappings_ok_inv _ _ _ _ Hloop s Hs).
  - rewrite hostConfig_selections in Hhc.
    destruct (rangeMappings _ _ _) as [m [e|]] eqn:Hloop; [discriminate|].
    change (resolved_services (c :: cfgs)) with (map cfgService (c :: cfgs)) in Hs.
    apply list_elem_of_fmap in Hs as (c0 & -> & Hc0).
    rewrite <- getMappingForServiceConfig_error.
    exact (rangeMappings_ok_inv _ _ _ _ Hloop c0 Hc0).
Qed.

Lemma selections_registered (cfgs : list ServiceConfig) :
  (∀ s, s ∈ map cfgService cfgs → ∃ p, registered s p ∧ tcp_port p) →
  ∀ c', c' ∈ cfgs → ∃ p, registered (cfgService c') p ∧ tcp_port p.
Proof. intros H c' Hc'. apply H, list_elem_of_fmap. eauto. Qed.

(** The default of a registered service. *)
Lemma registered_default (s : Service) (p : Z) :
  registered s p → (GetDefaultPort s).1 = p.
Proof. unfold registered. now intros ->. Qed.

(** Selections of distinct services in a registry of distinct defaults
    are stored under distinct ports. *)
Lemma selection_keys_inj (cfgs : list ServiceConfig) (c1 c2 : ServiceConfig) :
  registry_unique → NoDup (map cfgService cfgs) →
  (∀ c', c' ∈ cfgs → ∃ p, registered (cfgService c') p ∧ tcp_port p) →
  c1 ∈ cfgs → c2 ∈ cfgs →
  key_of (cfgService c1) = key_of (cfgService c2) → c1 = c2.
Proof.
  intros Huniq Hnd Hreg H1 H2 E. unfold key_of in E.
  apply internal_port_inj in E.
  destruct (Hreg c1 H1) as (p1 & Hp1 & _), (Hreg c2 H2) as (p2 & Hp2 & _).
  rewrite (registered_default _ _ Hp1), (registered_default _ _ Hp2) in E.
  subst p2. apply (NoDup_fmap_inj cfgService cfgs); auto.
  exact (Huniq _ _ p1 Hp1 Hp2).
Qed.

(** The selection that leaves the port out is mapped as its service. *)
Lemma no_override_is_service_mapping_aux (s : Service) :
  getMappingForServiceConfig (without_override s) = getMappingForService s.
Proof.
  unfold getMappingForServiceConfig, getMappingForService. simpl.
  now destruct (GetDefaultPort s) as [def [e|]].
Qed.

(** X1. The mapping of a selection succeeds exactly when the registry
    knows its service and the default is a TCP port number, from 0 to
    65535: a default outside this range fails in [nat.NewPort]. *)
Theorem mapping_succeeds_iff (cfg : ServiceConfig) :
  (getMappingForServiceConfig cfg).2 = None
  ↔ ∃ def, registered (cfgService cfg) def ∧ 0 <= def <= 65535.
Proof.
  split.
  - rewrite getMappingForServiceConfig_error.
    apply getMappingForService_ok_inv.
  - intros (def & Hreg & Hport).
    now rewrite (getMappingForServiceConfig_ok cfg def Hreg Hport).
Qed.

(** X2. Whenever a mapping fails, of a selection or of a service, the port
    returned next to the error is the string "nil" and the slice of bindings
    is nil. *)
Theorem mapping_error_shape (cfg : ServiceConfig) (s : Service) :
  (∀ e, (getMappingForServiceConfig cfg).2 = Some e →
        getMappingForServiceConfig cfg = ("nil", [], Some e))
  ∧ (∀ e, (getMappingForService s).2 = Some e →
          getMappingForService s = ("nil", [], Some e)).
Proof.
  unfold getMappingForServiceConfig, getMappingForService. split; intros e.
  - destruct (GetDefaultPort (cfgService cfg)) as [def [e1|]];
      [now intros [= <-]|].
    destruct (nat.NewPort "tcp" (strconv.Itoa def)) as [p [e2|]];
      [now intros [= <-] | discriminate].
  - destruct (GetDefaultPort s) as [def [e1|]]; [now intros [= <-]|].
    destruct (nat.NewPort "tcp" (strconv.Itoa def)) as [p [e2|]];
      [now intros [= <-] | discriminate].
Qed.

(** X3. A selection whose port is below 1 is mapped exactly as its service
    is mapped for the empty selection list, failures included. *)
Theorem no_override_is_service_mapping (cfg : ServiceConfig) :
  cfgPort cfg < 1 →
  getMappingForServiceConfig cfg = getMappingForService (cfgService cfg).
Proof.
  intros Hport. unfold getMappingForServiceConfig, getMappingForService.
  destruct (GetDefaultPort (cfgService cfg)) as [def [e|]]; [reflexivity|].
  destruct (Z.ltb_spec (cfgPort cfg) 1); [reflexivity | lia].
Qed.

(** X4. Two services registered with different TCP ports are mapped to
    different internal ports: the renderings of different numbers differ. *)
Theorem mapping_ports_do_not_collide (s1 s2 : Service) (p1 p2 : Z) :
  registered s1 p1 → registered s2 p2 → tcp_port p1 → tcp_port p2 →
  p1 ≠ p2 →
  (getMappingForService s1).1.1 ≠ (getMappingForService s2).1.1.
Proof.
  intros H1 H2 Hp1 Hp2 Hne.
  rewrite (getMappingForService_ok s1 p1 H1 Hp1),
          (getMappingForService_ok s2 p2 H2 Hp2). simpl.
  intros E. now apply Hne, internal_port_inj.
Qed.

(** X5. [hostConfig] returns a table exactly when every service it looks
    up (those of the selections, or the supported ones for the empty list)
    is registered with a TCP port. *)
Theorem hostConfig_succeeds_iff (cfgs : list ServiceConfig) :
  (∃ hc, hostConfig cfgs = (Some hc, None))
  ↔ ∀ s, s ∈ resolved_services cfgs → ∃ p, registered s p ∧ tcp_port p.
Proof.
  split.
  - intros (hc & Hhc). exact (hostConfig_ok_inv cfgs hc None Hhc).
  - intros Hreg. destruct cfgs as [|c cfgs].
    + eexists. exact (hostConfig_supported_ok Hreg).
    + eexists. apply hostConfig_selections_ok.
      apply selections_registered. exact Hreg.
Qed.

(** X6. The resolver stops at the first selection whose lookup fails: its
    error is returned whatever selections follow it. *)
Theorem hostConfig_first_error (l1 l2 : list ServiceConfig)
    (c : ServiceConfig) (x : Z) (e : error) :
  (∀ c', c' ∈ l1 → ∃ p, registered (cfgService c') p ∧ tcp_port p) →
  GetDefaultPort (cfgService c) = (x, Some e) →
  hostConfig (l1 ++ c :: l2) = (None, Some e).
Proof.
  intros Hreg Hfail.
  assert (Hloop : rangeMappings getMappingForServiceConfig (l1 ++ c :: l2) ∅
                  = (stored (λ c', key_of (cfgService c')) val_of_config ∅ l1,
                     Some e)).
  { apply (rangeMappings_first_error _ _ _ l1 l2 c "nil" []).
    - intros c' Hc'. destruct (Hreg c' Hc') as (p & Hp & Hport).
      rewrite (getMappingForServiceConfig_ok c' p Hp Hport).
      unfold key_of, val_of_config. now rewrite (registered_default _ _ Hp).
    - exact (getMappingForServiceConfig_lookup_error c x e Hfail). }
  destruct (l1 ++ c :: l2) as [|c0 l] eqn:E; [now destruct l1|].
  now rewrite hostConfig_selections, Hloop.
Qed.

(** X7. For a non-empty selection list every entry of the table is the
    binding of one of the selections: a supported service that is not
    selected gets no entry. *)
Theorem hostConfig_selected_only (c : ServiceConfig)
    (cfgs : list ServiceConfig) (hc : container.HostConfig)
    (k : nat.Port) (bs : list nat.PortBinding) :
  hostConfig (c :: cfgs) = (Some hc, None) →
  container.PortBindings hc !! k = Some bs →
  ∃ c' def, c' ∈ c :: cfgs ∧ registered (cfgService c') def
            ∧ k = strconv.Itoa def +:+ "/tcp"
            ∧ bs = [ {| nat.HostIP := "0.0.0.0";
                        nat.HostPort := strconv.Itoa (external_port c' def) |} ].
Proof.
  intros Hhc Hk.
  pose proof (selections_registered _ (hostConfig_ok_inv _ _ _ Hhc)) as Hreg.
  rewrite (hostConfig_selections_ok c cfgs Hreg) in Hhc.
  assert (E : container.PortBindings hc
              = stored (λ c', key_of (cfgService c')) val_of_config
                       ∅ (c :: cfgs)) by now injection Hhc as <-.
  rewrite E in Hk.
  apply (stored_lookup_Some _ _ (c :: cfgs) ∅) in Hk
    as [Hk|(c' & Hc' & <- & <-)].
  - now rewrite lookup_empty in Hk.
  - destruct (Hreg c' Hc') as (def & Hdef & _). exists c', def.
    unfold key_of, val_of_config. rewrite (registered_default _ _ Hdef). auto.
Qed.

(** X8. With distinct defaults in the registry, selections of pairwise
    distinct registered services give a table with exactly one entry per
    selection, each under the port of the service's default. *)
Theorem hostConfig_one_entry_per_selection (c : ServiceConfig)
    (cfgs : list ServiceConfig) :
  registry_unique → NoDup (map cfgService (c :: cfgs)) →
  (∀ c', c' ∈ c :: cfgs → ∃ p, registered (cfgService c') p ∧ tcp_port p) →
  ∃ m, hostConfig (c :: cfgs) = (Some {| container.PortBindings := m |}, None)
     ∧ size m = length (c :: cfgs)
     ∧ ∀ c' def, c' ∈ c :: cfgs → registered (cfgService c') def →
         m !! (strconv.Itoa def +:+ "/tcp")
         = Some [ {| nat.HostIP := "0.0.0.0";
                     nat.HostPort := strconv.Itoa (external_port c' def) |} ].
Proof.
  intros Huniq Hnd Hreg. eexists.
  split; [exact (hostConfig_selections_ok c cfgs Hreg)|]. split.
  - apply stored_size; [exact (NoDup_fmap_1 cfgService (c :: cfgs) Hnd)|].
    intros c1 c2. now apply selection_keys_inj.
  - intros c' def Hc' Hdef.
    replace (strconv.Itoa def +:+ "/tcp") with (key_of (cfgService c'))
      by (unfold key_of; now rewrite (registered_default _ _ Hdef)).
    replace [ {| nat.HostIP := "0.0.0.0";
                 nat.HostPort := strconv.Itoa (external_port c' def) |} ]
      with (val_of_config c')
      by (unfold val_of_config; now rewrite (registered_default _ _ Hdef)).
    apply (stored_lookup_elem (λ c', key_of (cfgService c')) val_of_config);
      [|exact Hc'].
    intros c1 c2 H1 H2 E.
    now rewrite (selection_keys_inj (c :: cfgs) c1 c2 Huniq Hnd Hreg H1 H2 E).
Qed.

(** X9. A table returned for a non-empty selection list has at least one
    entry and at most as many entries as there are selections. *)
Theorem hostConfig_size_bounds (c : ServiceConfig) (cfgs : list ServiceConfig)
    (hc : container.HostConfig) :
  hostConfig (c :: cfgs) = (Some hc, None) →
  (1 ≤ size (container.PortBindings hc) ≤ length (c :: cfgs))%nat.
Proof.
  intros Hhc.
  pose proof (selections_registered _ (hostConfig_ok_inv _ _ _ Hhc)) as Hreg.
  rewrite (hostConfig_selections_ok c cfgs Hreg) in Hhc.
  assert (E : container.PortBindings hc
              = stored (λ c', key_of (cfgService c')) val_of_config
                       ∅ (c :: cfgs)) by now injection Hhc as <-.
  rewrite E. clear E Hhc. split.
  - assert (Hin : key_of (cfgService c)
                  ∈ dom (stored (λ c', key_of (cfgService c')) val_of_config
                                ∅ (c :: cfgs))).
    { rewrite stored_dom. apply elem_of_union_r. simpl.
      now apply elem_of_union_l, elem_of_singleton_2. }
    apply elem_of_dom in Hin as [v Hv].
    destruct (size _) eqn:Hs; [|lia].
    apply map_size_empty_inv in Hs. now rewrite Hs, lookup_empty in Hv.
  - apply stored_size_le.
Qed.

(** X10. With distinct defaults in the registry, the table of selections
    of pairwise distinct registered services does not depend on the order
    in which they are given. *)
Theorem hostConfig_order_irrelevant (cfgs cfgs' : list ServiceConfig) :
  registry_unique → NoDup (map cfgService cfgs) →
  (∀ c', c' ∈ cfgs → ∃ p, registered (cfgService c') p ∧ tcp_port p) →
  cfgs ≡ₚ cfgs' →
  hostConfig cfgs = hostConfig cfgs'.
Proof.
  intros Huniq Hnd Hreg Hperm.
  destruct cfgs as [|c l].
  { apply Permutation_nil_l in Hperm. now subst. }
  destruct cfgs' as [|c' l'].
  { now apply Permutation_nil_r in Hperm. }
  rewrite (hostConfig_selections_ok c l Hreg).
  rewrite (hostConfig_selections_ok c' l').
  - rewrite (stored_Permutation _ _ (c :: l) (c' :: l'));
      [reflexivity | | exact Hperm].
    intros c1 c2 H1 H2 E.
    now rewrite (selection_keys_inj (c :: l) c1 c2 Huniq Hnd Hreg H1 H2 E).
  - intros c0 Hc0. apply Hreg. now rewrite Hperm.
Qed.

(** X11. Selecting every supported service without a port gives the same
    result, table or error, as selecting nothing. *)
Theorem hostConfig_select_all_is_select_none :
  hostConfig (map without_override SupportedServices) = hostConfig [].
Proof.
  rewrite hostConfig_supported.
  destruct SupportedServices as [|s l] eqn:E.
  - simpl. rewrite hostConfig_supported, E. reflexivity.
  - change (map without_override (s :: l))
      with (without_override s :: map without_override l).
    rewrite hostConfig_selections.
    change (without_override s :: map without_override l)
      with (map without_override (s :: l)).
    rewrite rangeMappings_fmap.
    rewrite (rangeMappings_ext _ getMappingForService); [reflexivity|].
    intros s' _. now apply no_override_is_service_mapping_aux.
Qed.

(** X12. The ports bound by a table depend on the services selected only:
    two selection lists with the same services in the same order, whatever
    their port overrides, bind the same internal ports. *)
Theorem hostConfig_ports_ignore_overrides (cfgs1 cfgs2 : list ServiceConfig)
    (hc1 hc2 : container.HostConfig) :
  map cfgService cfgs1 = map cfgService cfgs2 →
  hostConfig cfgs1 = (Some hc1, None) →
  hostConfig cfgs2 = (Some hc2, None) →
  dom (container.PortBindings hc1) = dom (container.PortBindings hc2).
Proof.
  intros Hsame H1 H2.
  destruct cfgs1 as [|c1 l1], cfgs2 as [|c2 l2]; try discriminate.
  { rewrite H1 in H2. now injection H2 as <-. }
  pose proof (selections_registered _ (hostConfig_ok_inv _ _ _ H1)) as Hreg1.
  pose proof (selections_registered _ (hostConfig_ok_inv _ _ _ H2)) as Hreg2.
  rewrite (hostConfig_selections_ok c1 l1 Hreg1) in H1.
  rewrite (hostConfig_selections_ok c2 l2 Hreg2) in H2.
  assert (E1 : container.PortBindings hc1
               = stored (λ c', key_of (cfgService c')) val_of_config
                        ∅ (c1 :: l1)) by now injection H1 as <-.
  assert (E2 : container.PortBindings hc2
               = stored (λ c', key_of (cfgService c')) val_of_config
                        ∅ (c2 :: l2)) by now injection H2 as <-.
  rewrite E1, E2, !stored_dom. f_equal.
  rewrite <- !(map_map cfgService key_of). now rewrite Hsame.
Qed.

(** X13. Whether the resolver fails, and with which error, depends on the
    services selected only, not on the port overrides. *)
Theorem hostConfig_error_ignores_overrides (cfgs1 cfgs2 : list ServiceConfig) :
  map cfgService cfgs1 = map cfgService cfgs2 →
  (hostConfig cfgs1).2 = (hostConfig cfgs2).2.
Proof.
  assert (Hloop : ∀ (l : list ServiceConfig) m m',
             (rangeMappings getMappingForServiceConfig l m).2
             = (rangeMappings getMappingForService (map cfgService l) m').2).
  { induction l as [|c l IH]; intros m m'; simpl; [reflexivity|].
    pose proof (getMappingForServiceConfig_error c) as Herr.
    destruct (getMappingForServiceConfig c) as [[p b] [e|]],
             (getMappingForService (cfgService c)) as [[p' b'] [e'|]];
      simpl in Herr; try discriminate; [exact Herr | apply IH]. }
  intros Hsame.
  destruct cfgs1 as [|c1 l1], cfgs2 as [|c2 l2]; try discriminate;
    [reflexivity|].
  rewrite !hostConfig_selections_error.
  now rewrite (Hloop (c1 :: l1) ∅ ∅), (Hloop (c2 :: l2) ∅ ∅), Hsame.
Qed.

End ResolverMore.

(** ** More on the environment composer *)

Section ComposerMore.

Context `{R : services.Registry} `{T : unicode.CaseTable}.

Import services.

Lemma string_app_assoc (s t u : string) : (s +:+ t) +:+ u = s +:+ t +:+ u.
Proof.
  induction s as [|a s IH]; [reflexivity|].
  change (String a ((s +:+ t) +:+ u) = String a (s +:+ t +:+ u)).
  now rewrite IH.
Qed.

(** Joining two non-empty lists joins their joins. *)
Lemma Join_app (l1 l2 : list string) (sep : string) :
  l1 ≠ [] → l2 ≠ [] →
  strings.Join (l1 ++ l2) sep
  = strings.Join l1 sep +:+ sep +:+ strings.Join l2 sep.
Proof.
  intros H1 H2. induction l1 as [|a [|b l1] IH]; [done| |].
  - destruct l2; [done | reflexivity].
  - change (strings.Join ((a :: b :: l1) ++ l2) sep)
      with (a +:+ sep +:+ strings.Join ((b :: l1) ++ l2) sep).
    rewrite IH by discriminate.
    change (strings.Join (a :: b :: l1) sep)
      with (a +:+ sep +:+ strings.Join (b :: l1) sep).
    now rewrite !string_app_assoc.
Qed.

(** A property checked on the numbers below [n] holds of each. *)
Lemma checked_below (P : Z → bool) (n : Datatypes.nat) :
  forallb P (map Z.of_nat (seq 0 n)) = true →
  ∀ x, 0 <= x < Z.of_nat n → P x = true.
Proof.
  intros Hall x Hx. rewrite forallb_forall in Hall. apply Hall.
  apply in_map_iff. exists (Z.to_nat x). split; [lia|].
  apply in_seq. lia.
Qed.

(** The byte of an ASCII rune that is no upper-case letter is none. *)
Lemma to_byte_ascii_not_upper (r : Z) :
  0 <= r <= 127 → ¬ (65 <= r <= 90) → is_upper (utf8.to_byte r) = false.
Proof.
  intros Hr Hup.
  pose proof (checked_below
                (λ x, ((65 <=? x) && (x <=? 90))
                      || negb (is_upper (utf8.to_byte x)))
                128 ltac:(vm_compute; reflexivity) r ltac:(lia)) as H.
  cbv beta in H. apply orb_prop in H as [H|H].
  - apply andb_prop in H as [H1 H2]. apply Z.leb_le in H1, H2. lia.
  - now apply negb_true_iff in H.
Qed.

(** The first and the later bytes of an encoding of several bytes are no
    letters. *)
Lemma to_byte_high (lead x : Z) :
  lead = 0x80 ∨ lead = 0xC0 ∨ lead = 0xE0 ∨ lead = 0xF0 →
  0 <= x < 64 → is_upper (utf8.to_byte (Z.lor lead x)) = false.
Proof.
  intros Hlead Hx.
  assert (Hcheck : ∀ l, l = 0x80 ∨ l = 0xC0 ∨ l = 0xE0 ∨ l = 0xF0 →
            forallb (λ y, negb (is_upper (utf8.to_byte (Z.lor l y))))
                    (map Z.of_nat (seq 0 64)) = true).
  { intros l [-> | [-> | [-> | ->]]]; vm_compute; reflexivity. }
  pose proof (checked_below _ 64 (Hcheck lead Hlead) x ltac:(lia)) as H.
  now apply negb_true_iff in H.
Qed.

Lemma shiftr_below_64 (r k : Z) :
  0 <= k → 0 <= r < 64 * 2 ^ k → 0 <= Z.shiftr r k < 64.
Proof.
  intros Hk Hr. rewrite Z.shiftr_div_pow2 by exact Hk.
  assert (0 < 2 ^ k) by (apply Z.pow_pos_nonneg; lia).
  split; [apply Z.div_pos; lia | apply Z.div_lt_upper_bound; lia].
Qed.

Lemma land_below_64 (y : Z) : 0 <= Z.land y 0x3F < 64.
Proof.
  change 0x3F with (Z.ones 6). rewrite Z.land_ones by lia.
  apply Z.mod_pos_bound. lia.
Qed.

(** The encoding of a rune that is no upper-case letter holds none. *)
Lemma EncodeRune_no_upper (r : Z) :
  ¬ (65 <= r <= 90) →
  Forall (λ ch, is_upper ch = false)
         (list_ascii_of_string (utf8.EncodeRune r)).
Proof.
  intros Hup. unfold utf8.EncodeRune.
  assert (Herr : Forall (λ ch, is_upper ch = false)
                        (list_ascii_of_string utf8.encodedRuneError))
    by (repeat constructor).
  destruct (Z.ltb_spec r 0); [exact Herr|].
  destruct (Z.leb_spec r 0x7F).
  { repeat constructor. apply to_byte_ascii_not_upper; lia. }
  destruct (Z.leb_spec r 0x7FF).
  { cbn [list_ascii_of_string]. repeat constructor.
    - apply to_byte_high; [auto | apply shiftr_below_64; lia].
    - apply to_byte_high; [auto | apply land_below_64]. }
  destruct ((0x10FFFF <? r) || ((0xD800 <=? r) && (r <=? 0xDFFF))) eqn:Hbad;
    [exact Herr|].
  apply orb_false_elim in Hbad as [Hmax _]. apply Z.ltb_ge in Hmax.
  destruct (Z.leb_spec r 0xFFFF); cbn [list_ascii_of_string];
    repeat constructor;
    (apply to_byte_high;
     [auto | (apply shiftr_below_64; lia) || apply land_below_64]).
Qed.

(** No rune has an upper-case ASCII letter as its lower case. *)
Lemma unicode_ToLower_not_upper (r : Z) : ¬ (65 <= unicode.ToLower r <= 90).
Proof.
  unfold unicode.ToLower, unicode.MaxASCII.
  destruct (Z.leb_spec r 0x7F).
  - destruct ((65 <=? r) && (r <=? 90)) eqn:Hup.
    + apply andb_prop in Hup as [H1 H2]. apply Z.leb_le in H1, H2. lia.
    + apply andb_false_iff in Hup as [Hup|Hup];
        [apply Z.leb_gt in Hup | apply Z.leb_gt in Hup]; lia.
  - apply unicode.ToLowerCase_not_upper. lia.
Qed.

Lemma list_ascii_of_string_app (s t : string) :
  list_ascii_of_string (s +:+ t)
  = list_ascii_of_string s ++ list_ascii_of_string t.
Proof.
  induction s as [|a s IH]; [reflexivity|].
  change (a :: list_ascii_of_string (s +:+ t)
          = a :: (list_ascii_of_string s ++ list_ascii_of_string t)).
  now rewrite IH.
Qed.

(** The lower case of a string holds no upper-case ASCII letter. *)
Lemma ToLower_no_upper (s : string) :
  Forall (λ ch, is_upper ch = false)
         (list_ascii_of_string (strings.ToLower s)).
Proof.
  rewrite ToLower_Map. unfold strings.Map.
  induction (utf8.runes s) as [|c l IH]; [constructor|].
  cbn [strings.writeRunes]. cbv zeta.
  destruct (0 <=? unicode.ToLower c); [|exact IH].
  rewrite list_ascii_of_string_app. apply Forall_app. split; [|exact IH].
  apply EncodeRune_no_upper, unicode_ToLower_not_upper.
Qed.

(** The entry of a non-empty selection list. *)
Lemma containerConfig_Env (img : string) (c : ServiceConfig)
    (cfgs : list ServiceConfig) :
  container.Env (containerConfig img (c :: cfgs))
  = [ "SERVICES=" +:+
      strings.ToLower
        (strings.Join (map (λ s, Service_String (cfgService s)) (c :: cfgs))
                      ",") ].
Proof.
  unfold containerConfig. change (0 <? length (c :: cfgs))%nat with true.
  cbv iota. cbn [container.Env]. now rewrite names_collected, app_nil_l.
Qed.

(** X14. Whatever the case of the service names, the value of the SERVICES
    entry holds no letter from A to Z (no rune has one as its lower case in
    the case table, see [unicode.CaseTable]). *)
Theorem Env_value_lower_case (img : string) (c : ServiceConfig)
    (cfgs : list ServiceConfig) :
  ∃ v, container.Env (containerConfig img (c :: cfgs)) = ["SERVICES=" +:+ v]
     ∧ Forall (λ ch, is_upper ch = false) (list_ascii_of_string v).
Proof.
  eexists. split; [apply containerConfig_Env | apply ToLower_no_upper].
Qed.

(** X15. The entry for two non-empty selection lists put one after the
    other is the entry of the first, a comma, and the value of the entry of
    the second. *)
Theorem Env_of_appended_selections (img : string) (c1 c2 : ServiceConfig)
    (l1 l2 : list ServiceConfig) :
  ∃ e1 v2,
    container.Env (containerConfig img (c1 :: l1)) = [e1]
    ∧ container.Env (containerConfig img (c2 :: l2)) = ["SERVICES=" +:+ v2]
    ∧ container.Env (containerConfig img ((c1 :: l1) ++ c2 :: l2))
      = [e1 +:+ "," +:+ v2].
Proof.
  eexists _, _. split; [apply containerConfig_Env|].
  split; [apply containerConfig_Env|].
  change ((c1 :: l1) ++ c2 :: l2) with (c1 :: (l1 ++ c2 :: l2)).
  rewrite containerConfig_Env.
  change (c1 :: (l1 ++ c2 :: l2)) with ((c1 :: l1) ++ c2 :: l2).
  rewrite map_app, Join_app by discriminate.
  now rewrite ToLower_comma, !string_app_assoc.
Qed.

End ComposerMore.

(** ** More on the lifecycle manager *)

Section LifecycleMore.

Context `{R : services.Registry} `{T : unicode.CaseTable} `{W : World}.

Import services.

(** Unfolds the sequencing of calls. *)
Ltac steps := unfold mbind, M_bind, mret, M_ret, call; cbn beta.

(** [pullImage] extends the history by calls that create no container. *)
Lemma pullImage_history (c0 : Client) (img : string) (h : list Call) :
  ∃ calls, (pullImage c0 img h).2 = h ++ CallNewEnvClient :: calls
         ∧ Forall (λ c, is_create c = false) calls.
Proof.
  unfold pullImage, NewEnvClient, ImagePull, CopyStdout, Printf. steps.
  destruct (NewEnvClient_answer _) as [c [e|]]; simpl.
  { exists []. now rewrite <- ?app_assoc. }
  destruct (ImagePull_answer _) as [o1 [e|]]; simpl.
  { eexists [_]. rewrite <- ?app_assoc. split; [reflexivity|].
    repeat constructor. }
  destruct (ImagePull_answer _) as [o2 [e|]]; simpl.
  { eexists [_; _]. rewrite <- ?app_assoc. split; [reflexivity|].
    repeat constructor. }
  destruct (Copy_answer _) as [n [e|]]; simpl.
  { eexists [_; _; _]. rewrite <- ?app_assoc. split; [reflexivity|].
    repeat constructor. }
  eexists [_; _; _; _]. rewrite <- ?app_assoc. split; [reflexivity|].
  repeat constructor.
Qed.

(** X16. [pullImage] returns nil only after its client was built, both
    pulls succeeded and the second stream was copied without error; the
    history then grows by exactly these calls and the log line. *)
Theorem pullImage_nil_inv (c0 : Client) (img : string) (h h' : list Call) :
  pullImage c0 img h = (None, h') →
  ∃ c out1 out2 n,
    let h1 := h ++ [CallNewEnvClient] in
    let h2 := h1 ++ [CallImagePull c Background img] in
    let h3 := h2 ++ [CallImagePull c Background img] in
    let h4 := h3 ++ [CallCopyStdout out2] in
    NewEnvClient_answer h1 = (c, None)
    ∧ ImagePull_answer h2 = (out1, None)
    ∧ ImagePull_answer h3 = (out2, None)
    ∧ Copy_answer h4 = (n, None)
    ∧ h' = h4 ++ [CallPrintf ("Successfully pulled image " +:+ img)].
Proof.
  unfold pullImage, NewEnvClient, ImagePull, CopyStdout, Printf. steps.
  destruct (NewEnvClient_answer _) as [c [e|]] eqn:E1; [discriminate|].
  destruct (ImagePull_answer _) as [o1 [e|]] eqn:E2; [discriminate|].
  destruct (ImagePull_answer (_ ++ [CallImagePull c Background img]))
    as [o2 [e|]] eqn:E3 in |- *; [discriminate|].
  destruct (Copy_answer _) as [n [e|]] eqn:E4; [discriminate|].
  intros [= <-]. exists c, o1, o2, n. cbv zeta. auto.
Qed.

(** X17. When [pullImage] returns an error it has made between one and
    four calls, none of them the log line of a successful pull. *)
Theorem pullImage_error_calls (c0 : Client) (img : string) (h h' : list Call)
    (e : error) :
  pullImage c0 img h = (Some e, h') →
  ∃ calls, h' = h ++ calls ∧ (1 ≤ length calls ≤ 4)%nat
         ∧ Forall (λ c, is_printf c = false) calls.
Proof.
  unfold pullImage, NewEnvClient, ImagePull, CopyStdout, Printf. steps.
  destruct (NewEnvClient_answer _) as [c [e1|]].
  { intros [= _ <-]. eexists [_]. repeat split; simpl; try lia.
    repeat constructor. }
  destruct (ImagePull_answer _) as [o1 [e2|]].
  { intros [= _ <-]. eexists [_; _]. rewrite <- ?app_assoc.
    repeat split; simpl; try lia. repeat constructor. }
  destruct (ImagePull_answer _) as [o2 [e3|]].
  { intros [= _ <-]. eexists [_; _; _]. rewrite <- ?app_assoc.
    repeat split; simpl; try lia. repeat constructor. }
  destruct (Copy_answer _) as [n [e4|]]; [|discriminate].
  intros [= _ <-]. eexists [_; _; _; _]. rewrite <- ?app_assoc.
  repeat split; simpl; try lia. repeat constructor.
Qed.

(** X18. A handle returned by [New] holds the client that [New] built
    first, the background context, the container configuration of the
    selections and the table of the resolver; the last call made is the
    creation of the container with exactly these, and the handle's
    identifier is the one that call answered. *)
Theorem New_success_handle (cfgs : list ServiceConfig) (h h' : list Call)
    (l : Localstack.t) :
  New cfgs h = (Return (Some l, None), h') →
  NewEnvClient_answer (h ++ [CallNewEnvClient])
  = (Localstack.dockerClient l, None)
  ∧ Localstack.dockerContext l = Background
  ∧ Localstack.containerConfig l = containerConfig ImageName cfgs
  ∧ hostConfig cfgs = (Some (Localstack.hostConfig l), None)
  ∧ ∃ h0, h' = h0 ++ [CallContainerCreate (Localstack.dockerClient l)
                        Background (Localstack.containerConfig l)
                        (Localstack.hostConfig l) ""]
        ∧ ContainerCreate_answer h' = (Localstack.ContainerID l, None).
Proof.
  intros Hnew.
  destruct (NewEnvClient_answer (h ++ [CallNewEnvClient])) as [c [e|]] eqn:Hc.
  { now rewrite (New_client_error cfgs h c e Hc) in Hnew. }
  destruct (pullImage c ImageName (h ++ [CallNewEnvClient])) as [[e|] h1]
    eqn:Hpull.
  { now rewrite (New_pull_error cfgs h h1 c e Hc Hpull) in Hnew. }
  destruct (hostConfig_result cfgs) as [(hc & Hhost)|(e & Hhost)].
  - destruct (New_create cfgs h h1 c hc Hc Hpull Hhost) as (h2 & Hcreate).
    cbv zeta in Hcreate. rewrite Hcreate in Hnew.
    destruct (ContainerCreate_answer _) as [ID [e|]] eqn:Hans;
      [discriminate|].
    injection Hnew as <- <-. simpl. repeat split; try assumption.
    exists h2. auto.
  - destruct (New_resolver_error cfgs h h1 c e Hc Hpull Hhost) as (h2 & Hfail).
    now rewrite Hfail in Hnew.
Qed.

(** X19. When the resolver rejects the selections, [New] returns an error
    and no handle, and no call of it creates a container, whatever the
    collaborators answer. *)
Theorem New_unresolvable_never_creates (cfgs : list ServiceConfig)
    (h : list Call) (e : error) :
  hostConfig cfgs = (None, Some e) →
  ∃ e' calls, New cfgs h = (Return (None, Some e'),
                            h ++ CallNewEnvClient :: calls)
            ∧ Forall (λ c, is_create c = false) calls.
Proof.
  intros Hhost.
  destruct (NewEnvClient_answer (h ++ [CallNewEnvClient])) as [c [e1|]] eqn:Hc.
  { rewrite (New_client_error cfgs h c e1 Hc). exists e1, []. auto. }
  destruct (pullImage_history c ImageName (h ++ [CallNewEnvClient]))
    as (calls & Hh & Hcalls).
  destruct (pullImage c ImageName (h ++ [CallNewEnvClient])) as [[e2|] h1]
    eqn:Hpull; simpl in Hh; subst h1.
  { rewrite (New_pull_error cfgs h _ c e2 Hc Hpull).
    exists e2, (CallNewEnvClient :: calls). rewrite <- app_assoc.
    split; [reflexivity|]. now constructor. }
  unfold New, NewEnvClient, Printf. steps. rewrite Hc, Hpull, Hhost.
  destruct (MarshalIndent_Config _) as [cs [e3|]].
  - exists e, (CallNewEnvClient :: calls). rewrite <- app_assoc.
    split; [reflexivity|]. now constructor.
  - exists e, (CallNewEnvClient :: calls
                 ++ [CallPrintf ("Container config is " +:+ cs)]).
    rewrite <- !app_assoc. split; [reflexivity|].
    constructor; [reflexivity|]. apply Forall_app. split; [exact Hcalls|].
    now constructor.
Qed.

(** X20. The selections are resolved only after the image is pulled: when
    the client is built and the pull succeeds, an error of the resolver is
    what [New] returns, and the history is that of the pull followed by
    log lines only. *)
Theorem New_resolves_after_pull (cfgs : list ServiceConfig)
    (h h1 : list Call) (c : Client) (e : error) :
  NewEnvClient_answer (h ++ [CallNewEnvClient]) = (c, None) →
  pullImage c ImageName (h ++ [CallNewEnvClient]) = (None, h1) →
  hostConfig cfgs = (None, Some e) →
  ∃ logs, New cfgs h = (Return (None, Some e), h1 ++ logs)
        ∧ Forall (λ c, is_printf c = true) logs.
Proof.
  intros Hc Hpull Hhost. unfold New, NewEnvClient, Printf. steps.
  rewrite Hc, Hpull, Hhost.
  destruct (MarshalIndent_Config _) as [cs [e3|]].
  - exists []. now rewrite app_nil_r.
  - eexists [_]. split; [reflexivity|]. now constructor.
Qed.



End LifecycleMore.

(** ** The further statements on the registry of three services *)

Lemma mapping_succeeds_iff_witness :
  (@getMappingForServiceConfig demo.registry (demo.select demo.S3 9000)).2
  = None.
Proof.
  apply (@mapping_succeeds_iff demo.registry (demo.select demo.S3 9000)).
  exists 4572. split; [reflexivity | lia].
Defined.

Lemma mapping_error_shape_witness :
  @getMappingForServiceConfig demo.registry (demo.select (demo.Other 7) 80)
  = ("nil", [], Some (ErrService "unsupported service")).
Proof.
  apply (@mapping_error_shape demo.registry
           (demo.select (demo.Other 7) 80) (demo.Other 7)).
  reflexivity.
Defined.

Lemma no_override_is_service_mapping_witness :
  @getMappingForServiceConfig demo.registry (demo.select demo.SNS (-3))
  = @getMappingForService demo.registry demo.SNS.
Proof.
  apply (@no_override_is_service_mapping demo.registry
           (demo.select demo.SNS (-3))).
  simpl. lia.
Defined.

Lemma mapping_ports_do_not_collide_witness :
  (@getMappingForService demo.registry demo.S3).1.1
  ≠ (@getMappingForService demo.registry demo.SNS).1.1.
Proof.
  apply (@mapping_ports_do_not_collide demo.registry demo.S3 demo.SNS
           4572 4575);
    [reflexivity | reflexivity | unfold tcp_port; lia | unfold tcp_port; lia
    | lia].
Defined.

Lemma hostConfig_succeeds_iff_witness :
  ∃ hc, @hostConfig demo.registry [] = (Some hc, None).
Proof.
  apply (@hostConfig_succeeds_iff demo.registry []).
  exact demo_registry_complete.
Defined.

Lemma hostConfig_first_error_witness :
  @hostConfig demo.registry
    [demo.select demo.S3 9000; demo.select (demo.Other 7) 0;
     demo.select (demo.Other 8) 0]
  = (None, Some (ErrService "unsupported service")).
Proof.
  apply (@hostConfig_first_error demo.registry
           [demo.select demo.S3 9000] [demo.select (demo.Other 8) 0]
           (demo.select (demo.Other 7) 0) 0).
  - intros c' Hc'. apply list_elem_of_singleton in Hc' as ->.
    exists 4572. split; [reflexivity | unfold tcp_port; lia].
  - reflexivity.
Defined.

Lemma hostConfig_selected_only_witness :
  ∃ (c' : @services.ServiceConfig demo.registry) (def : Z),
    c' ∈ [demo.select demo.S3 9000]
    ∧ registered (services.cfgService c') def
    ∧ "4572/tcp" = strconv.Itoa def +:+ "/tcp"
    ∧ [ {| nat.HostIP := "0.0.0.0"; nat.HostPort := "9000" |} ]
      = [ {| nat.HostIP := "0.0.0.0";
             nat.HostPort := strconv.Itoa (external_port c' def) |} ].
Proof.
  apply (@hostConfig_selected_only demo.registry
           (demo.select demo.S3 9000) []
           {| container.PortBindings :=
                {[ "4572/tcp" := [ {| nat.HostIP := "0.0.0.0";
                                     nat.HostPort := "9000" |} ] ]} |}).
  - vm_compute. reflexivity.
  - vm_compute. reflexivity.
Defined.

Lemma demo_two_selections_registered (p q : Z) :
  ∀ c', c' ∈ [demo.select demo.S3 p; demo.select demo.SQS q] →
        ∃ d, registered (services.cfgService c') d ∧ tcp_port d.
Proof.
  intros c' Hc'.
  repeat (apply elem_of_cons in Hc' as [->|Hc']);
    [exists 4572 | exists 4576 | inversion Hc'];
    (split; [reflexivity | unfold tcp_port; lia]).
Qed.

Lemma demo_two_selections_NoDup (p q : Z) :
  NoDup (map services.cfgService
           [demo.select demo.S3 p; demo.select demo.SQS q]).
Proof.
  simpl. apply NoDup_cons. split.
  - intros H. apply list_elem_of_singleton in H. discriminate.
  - apply NoDup_singleton.
Qed.

Lemma hostConfig_one_entry_per_selection_witness :
  ∃ m, @hostConfig demo.registry
         [demo.select demo.S3 9000; demo.select demo.SQS 0]
       = (Some {| container.PortBindings := m |}, None)
     ∧ size m = 2%nat
     ∧ m !! "4576/tcp" = Some [ {| nat.HostIP := "0.0.0.0";
                                   nat.HostPort := "4576" |} ].
Proof.
  destruct (@hostConfig_one_entry_per_selection demo.registry
              (demo.select demo.S3 9000) [demo.select demo.SQS 0]
              demo_registry_unique (demo_two_selections_NoDup 9000 0)
              (demo_two_selections_registered 9000 0))
    as (m & Hm & Hsize & Hin).
  exists m. split; [exact Hm|]. split; [exact Hsize|].
  apply (Hin (demo.select demo.SQS 0) 4576); [right; left | reflexivity].
Defined.

Lemma hostConfig_size_bounds_witness :
  (1 ≤ size (container.PortBindings
               {| container.PortBindings :=
                    {[ "4572/tcp" := [ {| nat.HostIP := "0.0.0.0";
                                         nat.HostPort := "9001" |} ] ]} |})
     ≤ length [demo.select demo.S3 9000; demo.select demo.S3 9001])%nat.
Proof.
  apply (@hostConfig_size_bounds demo.registry
           (demo.select demo.S3 9000) [demo.select demo.S3 9001]).
  vm_compute. reflexivity.
Defined.

Lemma hostConfig_order_irrelevant_witness :
  @hostConfig demo.registry [demo.select demo.S3 9000; demo.select demo.SQS 0]
  = @hostConfig demo.registry
      [demo.select demo.SQS 0; demo.select demo.S3 9000].
Proof.
  apply (@hostConfig_order_irrelevant demo.registry).
  - exact demo_registry_unique.
  - exact (demo_two_selections_NoDup 9000 0).
  - exact (demo_two_selections_registered 9000 0).
  - apply perm_swap.
Defined.

Lemma hostConfig_ports_ignore_overrides_witness :
  dom (container.PortBindings
         {| container.PortBindings :=
              {[ "4572/tcp" := [ {| nat.HostIP := "0.0.0.0";
                                   nat.HostPort := "9000" |} ] ]} |})
  = dom (container.PortBindings
           {| container.PortBindings :=
                {[ "4572/tcp" := [ {| nat.HostIP := "0.0.0.0";
                                     nat.HostPort := "4572" |} ] ]} |}).
Proof.
  apply (@hostConfig_ports_ignore_overrides demo.registry
           [demo.select demo.S3 9000] [demo.select demo.S3 0]).
  - reflexivity.
  - vm_compute. reflexivity.
  - vm_compute. reflexivity.
Defined.

Lemma hostConfig_error_ignores_overrides_witness :
  (@hostConfig demo.registry
     [demo.select demo.S3 1; demo.select (demo.Other 7) 2]).2
  = (@hostConfig demo.registry
       [demo.select demo.S3 0; demo.select (demo.Other 7) 9000]).2.
Proof.
  apply (@hostConfig_error_ignores_overrides demo.registry). reflexivity.
Defined.

(** The history of a pull in which no call fails. *)
Lemma pullImage_nil_inv_witness :
  ∃ c out1 out2 n,
    @NewEnvClient_answer (demo.world []) [CallNewEnvClient] = (c, None)
    ∧ @ImagePull_answer (demo.world [])
        [CallNewEnvClient; CallImagePull c Background ImageName]
      = (out1, None)
    ∧ @ImagePull_answer (demo.world [])
        [CallNewEnvClient; CallImagePull c Background ImageName;
         CallImagePull c Background ImageName]
      = (out2, None)
    ∧ @Copy_answer (demo.world [])
        [CallNewEnvClient; CallImagePull c Background ImageName;
         CallImagePull c Background ImageName; CallCopyStdout out2]
      = (n, None).
Proof.
  destruct (@pullImage_nil_inv (demo.world []) (client 0) ImageName []
              [CallNewEnvClient;
               CallImagePull (client 1) Background ImageName;
               CallImagePull (client 1) Background ImageName;
               CallCopyStdout (stream 3);
               CallPrintf ("Successfully pulled image " +:+ ImageName)]
              eq_refl)
    as (c & out1 & out2 & n & H1 & H2 & H3 & H4 & _).
  exists c, out1, out2, n. auto.
Defined.

(** The second pull fails. *)
Lemma pullImage_error_calls_witness :
  ∃ calls,
    [CallNewEnvClient; CallImagePull (client 1) Background ImageName;
     CallImagePull (client 1) Background ImageName] = [] ++ calls
    ∧ (1 ≤ length calls ≤ 4)%nat
    ∧ Forall (λ c, is_printf c = false) calls.
Proof.
  apply (@pullImage_error_calls (demo.world [2%nat]) (client 0) ImageName []
           _ (ErrRuntime "daemon unreachable")).
  reflexivity.
Defined.

Lemma New_success_handle_witness :
  @hostConfig demo.registry [demo.select demo.S3 9000]
  = (Some {| container.PortBindings :=
               {[ "4572/tcp" := [ {| nat.HostIP := "0.0.0.0";
                                    nat.HostPort := "9000" |} ] ]} |},
     None).
Proof.
  pose (hc := {| container.PortBindings :=
                   {[ "4572/tcp" := [ {| nat.HostIP := "0.0.0.0";
                                        nat.HostPort := "9000" |} ] ]} |}).
  pose (cc := @containerConfig demo.registry demo.table ImageName
                [demo.select demo.S3 9000]).
  apply (@New_success_handle demo.registry demo.table (demo.world [])
           [demo.select demo.S3 9000] []
           [CallNewEnvClient; CallNewEnvClient;
            CallImagePull (client 2) Background ImageName;
            CallImagePull (client 2) Background ImageName;
            CallCopyStdout (stream 4);
            CallPrintf ("Successfully pulled image " +:+ ImageName);
            CallPrintf "Container config is {}";
            CallPrintf "Host Config port bindings are {}";
            CallContainerCreate (client 1) Background cc hc ""]
           (Localstack.mk "c0ffee" (client 1) Background cc hc)).
  vm_compute. reflexivity.
Defined.

Lemma New_unresolvable_never_creates_witness :
  ∃ e' calls,
    @New demo.registry demo.table (demo.world []) [demo.select (demo.Other 7) 0] []
    = (Return (None, Some e'), [] ++ CallNewEnvClient :: calls)
    ∧ Forall (λ c, is_create c = false) calls.
Proof.
  apply (@New_unresolvable_never_creates demo.registry demo.table (demo.world [])
           [demo.select (demo.Other 7) 0] []
           (ErrService "unsupported service")).
  reflexivity.
Defined.

Lemma New_resolves_after_pull_witness :
  ∃ logs,
    @New demo.registry demo.table (demo.world []) [demo.select (demo.Other 7) 0] []
    = (Return (None, Some (ErrService "unsupported service")),
       [CallNewEnvClient; CallNewEnvClient;
        CallImagePull (client 2) Background ImageName;
        CallImagePull (client 2) Background ImageName;
        CallCopyStdout (stream 4);
        CallPrintf ("Successfully pulled image " +:+ ImageName)] ++ logs)
    ∧ Forall (λ c, is_printf c = true) logs.
Proof.
  apply (@New_resolves_after_pull demo.registry demo.table (demo.world [])
           [demo.select (demo.Other 7) 0] [] _ (client 1));
    reflexivity.
Defined.

